(** * Quick-Notes: the authorization and validation core

    A shallow embedding of [src/types.ts], [src/storage.ts],
    [src/services/authService.ts] and [src/services/notesService.ts],
    followed by the properties of the note life cycle.

    Conventions of the embedding:
    - a JavaScript string is the list of its UTF-16 code units, so
      [.length] is [length] and [.trim()] works on code units;
    - [T | undefined] and [T | null] are [option T];
    - the [Storage] object (two private [Map]s) is threaded through every
      call by a small state monad;
    - [uuidv4()] and [new Date()] read the environment: the value that
      the call returns is an explicit argument of the operation. *)

From Stdlib Require Import ZArith NArith List Ascii String Sorting.Sorted Permutation.
From stdpp Require Import base option list strings gmap.

Open Scope Z_scope.

(** ** JavaScript strings *)

Definition jsstring := list N.

Definition code_unit (a : ascii) : N := N_of_ascii a.

Fixpoint str (s : string) : jsstring :=
  match s with
  | EmptyString => []
  | String a rest => code_unit a :: str rest
  end.
Arguments str _%_string.

(** [StrWhiteSpaceChar]: the code points of ECMAScript's WhiteSpace
    (TAB, VT, FF, ZWNBSP and the Unicode space separators) and
    LineTerminator (LF, CR, LS, PS) productions.  All of them lie in the
    basic plane, so each is one code unit. *)
Definition isWhiteSpace (c : N) : bool :=
  ((c =? 0x09) || (c =? 0x0A) || (c =? 0x0B) || (c =? 0x0C) || (c =? 0x0D)
   || (c =? 0x20) || (c =? 0xA0) || (c =? 0x1680)
   || ((0x2000 <=? c) && (c <=? 0x200A))
   || (c =? 0x2028) || (c =? 0x2029) || (c =? 0x202F) || (c =? 0x205F)
   || (c =? 0x3000) || (c =? 0xFEFF))%N.

Fixpoint trimStart (s : jsstring) : jsstring :=
  match s with
  | [] => []
  | c :: rest => if isWhiteSpace c then trimStart rest else s
  end.

Definition trimEnd (s : jsstring) : jsstring := rev (trimStart (rev s)).

(** [String.prototype.trim] *)
Definition trim (s : jsstring) : jsstring := trimEnd (trimStart s).

(** JavaScript truthiness of a [string | undefined] (or [string | null]):
    only [undefined]/[null] and the empty string are falsy. *)
Definition truthy (v : option jsstring) : bool :=
  match v with
  | Some (_ :: _) => true
  | _ => false
  end.

(** [v === undefined] *)
Definition is_undefined {A} (v : option A) : bool :=
  match v with
  | None => true
  | Some _ => false
  end.

(** ** Dates

    [new Date().toISOString()] renders the clock reading, an integral
    number of milliseconds since the epoch, as ISO-8601 text, and
    [new Date(text).getTime()] reads the same number back.  The text is
    represented by the instant it denotes. *)

Inductive ISOString := ISO (ms : Z).

Definition toISOString (now : Z) : ISOString := ISO now.
Definition getTime (s : ISOString) : Z := match s with ISO ms => ms end.

(** ** [Map]: entries in insertion order

    [Map.prototype.forEach] visits the entries in insertion order, which
    [getNotesByUser] observes, so a [Map] whose iteration order matters is
    the list of its entries, oldest first. *)

Module JSMap.
Section JSMap.
Context {K V : Type} `{EqDecision K}.

Definition t := list (K * V).

Fixpoint get (k : K) (m : t) : option V :=
  match m with
  | [] => None
  | (k', v) :: rest => if decide (k' = k) then Some v else get k rest
  end.

(** [set] on a present key replaces the value where it stands; a new
    key is appended. *)
Fixpoint set (k : K) (v : V) (m : t) : t :=
  match m with
  | [] => [(k, v)]
  | (k', v') :: rest =>
      if decide (k' = k) then (k, v) :: rest else (k', v') :: set k v rest
  end.

Definition has (k : K) (m : t) : bool :=
  match get k m with Some _ => true | None => false end.

Fixpoint delete (k : K) (m : t) : t :=
  match m with
  | [] => []
  | (k', v') :: rest =>
      if decide (k' = k) then rest else (k', v') :: delete k rest
  end.

Definition keys (m : t) : list K := map fst m.
Definition values (m : t) : list V := map snd m.

(** The keys of a [Map] are pairwise distinct. *)
Definition wf (m : t) : Prop := NoDup (keys m).
End JSMap.
Arguments t : clear implicits.
End JSMap.

(** ** [Array.prototype.sort]

    The sort is stable (ECMAScript 2019): [a] is placed before [b] when
    [cmp a b < 0], and elements that compare equal keep their order.  For
    a consistent comparator that fixes the result, computed here by
    insertion from the right. *)

Section ArraySort.
Context {A : Type} (cmp : A → A → Z).

Fixpoint sort_insert (x : A) (l : list A) : list A :=
  match l with
  | [] => [x]
  | y :: rest => if cmp x y <=? 0 then x :: l else y :: sort_insert x rest
  end.

Fixpoint array_sort (l : list A) : list A :=
  match l with
  | [] => []
  | x :: rest => sort_insert x (array_sort rest)
  end.
End ArraySort.

(** ** [src/types.ts] *)

Module Note.
Record t := mk {
  id : jsstring;
  userId : jsstring;
  title : jsstring;
  body : jsstring;
  createdAt : ISOString;
  updatedAt : option ISOString;
}.
End Note.
Abbreviation Note := Note.t.

(** [CreateNoteDto.title] is declared [string], but the value is an
    unchecked request body and [validateTitle] is written for
    [string | undefined]: the field may be missing. *)
Record CreateNoteDto := {
  create_title : option jsstring;
  create_body : option jsstring;
}.

Record UpdateNoteDto := {
  update_title : option jsstring;
  update_body : option jsstring;
}.

(** ** [src/storage.ts] *)

Record Storage := {
  notes : JSMap.t jsstring Note;
  tokens : gmap jsstring jsstring;
}.

Definition emptyStorage : Storage := {| notes := []; tokens := ∅ |}.

(** The state monad that threads the [storage] singleton. *)
Definition M (A : Type) : Type := Storage → A * Storage.

Definition ret {A} (a : A) : M A := fun st => (a, st).
Definition bind {A B} (c : M A) (k : A → M B) : M B :=
  fun st => let '(a, st') := c st in k a st'.

Notation "'do' x <- c ; k" := (bind c (fun x => k))
  (at level 10, x name, c at level 100, k at level 200).
Notation "c ;; k" := (bind c (fun _ => k))
  (at level 100, k at level 200, right associativity).

Module storage.
Definition saveNote (note : Note) : M unit := fun st =>
  (tt, {| notes := JSMap.set note.(Note.id) note st.(notes);
          tokens := st.(tokens) |}).

Definition getNote (id : jsstring) : M (option Note) := fun st =>
  (JSMap.get id st.(notes), st).

(** The comparator handed to [sort]. *)
Definition byCreatedAtDesc (a b : Note) : Z :=
  getTime b.(Note.createdAt) - getTime a.(Note.createdAt).

Definition getNotesByUser (userId : jsstring) : M (list Note) := fun st =>
  let userNotes :=
    fold_left
      (fun userNotes '(_, note) =>
         if decide (note.(Note.userId) = userId)
         then userNotes ++ [note] else userNotes)
      st.(notes) [] in
  (array_sort byCreatedAtDesc userNotes, st).

Definition deleteNote (id : jsstring) : M bool := fun st =>
  (JSMap.has id st.(notes),
   {| notes := JSMap.delete id st.(notes); tokens := st.(tokens) |}).

Definition saveToken (token userId : jsstring) : M unit := fun st =>
  (tt, {| notes := st.(notes);
          tokens := <[token := userId]> st.(tokens) |}).

Definition getUserIdByToken (token : jsstring) : M (option jsstring) :=
  fun st => (st.(tokens) !! token, st).
End storage.

(** ** [src/services/authService.ts] *)

Module authService.
(** [uuid] is the value of [uuidv4()]. *)
Definition generateToken (uuid : jsstring) (userId : jsstring)
  : M jsstring :=
  let token := str "fake_" ++ uuid in
  storage.saveToken token userId ;;
  ret token.

(** [userId || null] *)
Definition validateToken (token : jsstring) : M (option jsstring) :=
  do userId <- storage.getUserIdByToken token;
  ret (if truthy userId then userId else None).
End authService.

(** ** [src/services/notesService.ts] *)

(** The object that [createNote] returns: [{ note }] or [{ error }]. *)
Inductive CreateResult :=
| CreateNote (note : Note)
| CreateError (error : jsstring).

(** The object that [updateNote] returns: exactly one of [{ note }],
    [{ error }], [{ notFound: true }], [{ forbidden: true }]. *)
Inductive UpdateResult :=
| UpdateNote (note : Note)
| UpdateError (error : jsstring)
| UpdateNotFound
| UpdateForbidden.

(** The object that [deleteNote] returns: [{ success: true }],
    [{ notFound: true }] or [{ forbidden: true }]. *)
Inductive DeleteResult :=
| DeleteSuccess
| DeleteNotFound
| DeleteForbidden.

Module notesService.
Definition validateTitle (title : option jsstring) : option jsstring :=
  match title with
  | None | Some [] => Some (str "Title is required")
  | Some title =>
      let trimmed := trim title in
      if (length trimmed =? 0)%nat then Some (str "Title is required")
      else if (80 <? length trimmed)%nat
           then Some (str "Title must not exceed 80 characters")
           else None
  end.

Definition validateBody (body : option jsstring) : option jsstring :=
  match body with
  | Some b =>
      if (500 <? length b)%nat
      then Some (str "Body must not exceed 500 characters")
      else None
  | None => None
  end.

(** [uuid] is the value of [uuidv4()], [now] the reading of
    [new Date()].  The error messages are non-empty strings, so
    [if (titleError)] tests for a message.  [dto.title.trim()] is
    reached only when [validateTitle] has passed, so the title is a
    string there. *)
Definition createNote (uuid : jsstring) (now : Z)
    (userId : jsstring) (dto : CreateNoteDto) : M CreateResult :=
  match validateTitle dto.(create_title) with
  | Some titleError => ret (CreateError titleError)
  | None =>
      match validateBody dto.(create_body) with
      | Some bodyError => ret (CreateError bodyError)
      | None =>
          let note := {|
            Note.id := str "note_" ++ uuid;
            Note.userId := userId;
            Note.title := trim (default [] dto.(create_title));
            Note.body :=
              if truthy dto.(create_body)
              then default [] dto.(create_body) else [];
            Note.createdAt := toISOString now;
            Note.updatedAt := None;
          |} in
          storage.saveNote note ;;
          ret (CreateNote note)
      end
  end.

Definition getUserNotes (userId : jsstring) : M (list Note) :=
  storage.getNotesByUser userId.

Definition getNote (noteId : jsstring) : M (option Note) :=
  storage.getNote noteId.

(** [now] is the reading of [new Date()]. *)
Definition updateNote (now : Z) (noteId userId : jsstring)
    (dto : UpdateNoteDto) : M UpdateResult :=
  do found <- storage.getNote noteId;
  match found with
  | None => ret UpdateNotFound
  | Some note =>
      if decide (note.(Note.userId) ≠ userId) then ret UpdateForbidden
      else if is_undefined dto.(update_title)
              && is_undefined dto.(update_body)
      then ret (UpdateError (str "No updatable fields provided"))
      else
        match (if is_undefined dto.(update_title) then None
               else validateTitle dto.(update_title)) with
        | Some titleError => ret (UpdateError titleError)
        | None =>
            match (if is_undefined dto.(update_body) then None
                   else validateBody dto.(update_body)) with
            | Some bodyError => ret (UpdateError bodyError)
            | None =>
                let updatedNote := {|
                  Note.id := note.(Note.id);
                  Note.userId := note.(Note.userId);
                  Note.title :=
                    match dto.(update_title) with
                    | Some title => trim title
                    | None => note.(Note.title)
                    end;
                  Note.body :=
                    match dto.(update_body) with
                    | Some body => body
                    | None => note.(Note.body)
                    end;
                  Note.createdAt := note.(Note.createdAt);
                  Note.updatedAt := Some (toISOString now);
                |} in
                storage.saveNote updatedNote ;;
                ret (UpdateNote updatedNote)
            end
        end
  end.

Definition deleteNote (noteId userId : jsstring) : M DeleteResult :=
  do found <- storage.getNote noteId;
  match found with
  | None => ret DeleteNotFound
  | Some note =>
      if decide (note.(Note.userId) ≠ userId) then ret DeleteForbidden
      else
        storage.deleteNote noteId ;;
        ret DeleteSuccess
  end.
End notesService.

(** ** The representation invariant of the note store *)

(** [notes] is private to [Storage] and written only by [saveNote], which
    files a note under its own identifier: the keys are distinct and each
    entry's key is the identifier of its note. *)
Definition storage_inv (st : Storage) : Prop :=
  JSMap.wf st.(notes)
  ∧ ∀ k note, (k, note) ∈ st.(notes) → note.(Note.id) = k.

(** The calls that the HTTP layer makes on the two services, each with
    the values that [uuidv4()] and [new Date()] return during the call. *)
Inductive Op :=
| OpGenerateToken (uuid userId : jsstring)
| OpValidateToken (token : jsstring)
| OpCreateNote (uuid : jsstring) (now : Z) (userId : jsstring)
    (dto : CreateNoteDto)
| OpGetUserNotes (userId : jsstring)
| OpGetNote (noteId : jsstring)
| OpUpdateNote (now : Z) (noteId userId : jsstring) (dto : UpdateNoteDto)
| OpDeleteNote (noteId userId : jsstring).

Definition step (op : Op) : M unit :=
  match op with
  | OpGenerateToken uuid userId =>
      authService.generateToken uuid userId ;; ret tt
  | OpValidateToken token => authService.validateToken token ;; ret tt
  | OpCreateNote uuid now userId dto =>
      notesService.createNote uuid now userId dto ;; ret tt
  | OpGetUserNotes userId => notesService.getUserNotes userId ;; ret tt
  | OpGetNote noteId => notesService.getNote noteId ;; ret tt
  | OpUpdateNote now noteId userId dto =>
      notesService.updateNote now noteId userId dto ;; ret tt
  | OpDeleteNote noteId userId =>
      notesService.deleteNote noteId userId ;; ret tt
  end.

Fixpoint run (ops : list Op) : M unit :=
  match ops with
  | [] => ret tt
  | op :: rest => step op ;; run rest
  end.

(** [op] draws a uuid whose note identifier is [noteId]. *)
Definition allocates (noteId : jsstring) (op : Op) : Prop :=
  match op with
  | OpCreateNote uuid _ _ _ => str "note_" ++ uuid = noteId
  | _ => False
  end.

(** ** Orders on notes *)

(** [a] may stand before [b]: [a] was not created before [b]. *)
Definition newestFirst (a b : Note) : Prop :=
  getTime b.(Note.createdAt) ≤ getTime a.(Note.createdAt).

(** ** Example stores *)

(** The store used in the examples: one note "Shop"/"milk" of alice,
    created at instant 1000 under the identifier "note_n1". *)
Definition aliceStore : Storage :=
  snd (notesService.createNote (str "n1") 1000 (str "alice")
         {| create_title := Some (str "Shop");
            create_body := Some (str "milk") |} emptyStorage).

Definition aliceNote : Note :=
  {| Note.id := str "note_n1"; Note.userId := str "alice";
     Note.title := str "Shop"; Note.body := str "milk";
     Note.createdAt := toISOString 1000; Note.updatedAt := None |}.

(** Three notes of alice, created in sequence from the empty store at
    the clock readings [now1], [now2], [now3]. *)
Definition threeNotes (now1 now2 now3 : Z) : Storage :=
  let st1 := (notesService.createNote (str "a") now1 (str "alice")
                {| create_title := Some (str "first");
                   create_body := None |} emptyStorage).2 in
  let st2 := (notesService.createNote (str "b") now2 (str "alice")
                {| create_title := Some (str "second");
                   create_body := None |} st1).2 in
  (notesService.createNote (str "c") now3 (str "alice")
     {| create_title := Some (str "third"); create_body := None |} st2).2.

Definition plainNote (uuid title : jsstring) (now : Z) : Note :=
  {| Note.id := str "note_" ++ uuid; Note.userId := str "alice";
     Note.title := title; Note.body := [];
     Note.createdAt := toISOString now; Note.updatedAt := None |}.

Arguments notesService.validateTitle : simpl never.
Arguments notesService.validateBody : simpl never.
Arguments trim : simpl never.
Arguments str : simpl never.

(** ** The HTTP layer: [src/middleware/auth.ts], [src/routes/auth.ts],
    [src/routes/notes.ts]

    Of [src/routes/notes.ts] the handlers of [GET /notes] and
    [DELETE /notes/:id] are embedded.  Those of [POST /notes] and
    [PATCH /notes/:id] hand [req.body] to the service unchecked; its
    fields may be any JSON value, and a note whose body is not a string
    has no place in [Note], so these two handlers are left out.  What
    is proved of [withAuth] holds for every handler. *)

(** A field of a JSON request body as far as a handler looks at it: a
    string, or any other value (a number, a boolean, [null], an object,
    an array, or [undefined] for a missing field) with its truthiness. *)
Inductive JsValue :=
| JsString (s : jsstring)
| JsOther (isTruthy : bool).

(** [!v] *)
Definition js_falsy (v : JsValue) : bool :=
  match v with
  | JsString s => negb (truthy (Some s))
  | JsOther isTruthy => negb isTruthy
  end.

(** [typeof v !== 'string'] *)
Definition not_a_string (v : JsValue) : bool :=
  match v with
  | JsString _ => false
  | JsOther _ => true
  end.

(** What [res.json(...)] or [res.send()] is given. *)
Inductive ResponseBody :=
| JsonError (error : jsstring)
| JsonToken (token : jsstring)
| JsonNote (note : Note)
| JsonNotes (userNotes : list Note)
| NoBody.

Module Response.
Record t := mk {
  status : Z;
  json : ResponseBody;
}.
End Response.
Abbreviation Response := Response.t.

(** [String.prototype.split] with a separator of one code unit. *)
Fixpoint split (sep : N) (s : jsstring) : list jsstring :=
  match s with
  | [] => [[]]
  | c :: rest =>
      if (c =? sep)%N then [] :: split sep rest
      else match split sep rest with
           | part :: parts => (c :: part) :: parts
           | [] => [[c]]
           end
  end.

(** The code unit of the space in [' ']. *)
Definition SPACE : N := 0x20%N.

(** How a middleware ends: it has sent a response, or it has set
    [req.userId] and called [next()]. *)
Inductive MiddlewareResult :=
| Responded (res : Response)
| Next (userId : jsstring).

Definition authMiddleware (authHeader : option jsstring)
  : M MiddlewareResult :=
  if negb (truthy authHeader)
  then ret (Responded (Response.mk 401
              (JsonError (str "Authorization header is missing"))))
  else
    let parts := split SPACE (default [] authHeader) in
    if negb (length parts =? 2)%nat
       || negb (bool_decide (parts !! 0%nat = Some (str "Bearer")))
    then ret (Responded (Response.mk 401
                (JsonError
                   (str "Invalid authorization format. Use: Bearer <token>"))))
    else
      let token := default [] (parts !! 1%nat) in
      do userId <- authService.validateToken token;
      if negb (truthy userId)
      then ret (Responded (Response.mk 401
                  (JsonError (str "Invalid or expired token"))))
      else ret (Next (default [] userId)).

(** [router.METHOD(path, authMiddleware, handler)] *)
Definition withAuth (authHeader : option jsstring)
    (handler : jsstring → M Response) : M Response :=
  do outcome <- authMiddleware authHeader;
  match outcome with
  | Responded res => ret res
  | Next userId => handler userId
  end.

Module routes.
(** [POST /auth/mock-login]; [userId] is the field of that name in the
    request body, [uuid] the value of [uuidv4()]. *)
Definition mock_login (uuid : jsstring) (userId : JsValue) : M Response :=
  if js_falsy userId || not_a_string userId
     || match userId with
        | JsString s => (length (trim s) =? 0)%nat
        | JsOther _ => false
        end
  then ret (Response.mk 400
              (JsonError
                 (str "userId is required and must be a non-empty string")))
  else
    do token <- authService.generateToken uuid
                  (match userId with
                   | JsString s => trim s
                   | JsOther _ => []
                   end);
    ret (Response.mk 200 (JsonToken token)).

(** [GET /notes] *)
Definition notes_get (authHeader : option jsstring) : M Response :=
  withAuth authHeader (fun userId =>
    do userNotes <- notesService.getUserNotes userId;
    ret (Response.mk 200 (JsonNotes userNotes))).

(** [DELETE /notes/:id] *)
Definition notes_delete (authHeader : option jsstring)
    (noteId : jsstring) : M Response :=
  withAuth authHeader (fun userId =>
    do result <- notesService.deleteNote noteId userId;
    match result with
    | DeleteNotFound =>
        ret (Response.mk 404 (JsonError (str "Note not found")))
    | DeleteForbidden =>
        ret (Response.mk 403
               (JsonError
                  (str "You do not have permission to delete this note")))
    | DeleteSuccess => ret (Response.mk 204 NoBody)
    end).
End routes.

(** ** Invariants of the stored data *)



(** Every token is bound to a user identifier that is not empty and has
    no white space at either end. *)
Definition tokens_inv (st : Storage) : Prop :=
  ∀ token userId, st.(tokens) !! token = Some userId →
    userId ≠ [] ∧ trim userId = userId.

(** [op] is a [generateToken] that issues [token]. *)
Definition issues (token : jsstring) (op : Op) : Prop :=
  match op with
  | OpGenerateToken uuid _ => str "fake_" ++ uuid = token
  | _ => False
  end.

(** The user in whose name a call on the notes service is made. *)
Definition op_user (op : Op) : option jsstring :=
  match op with
  | OpCreateNote _ _ userId _ => Some userId
  | OpGetUserNotes userId => Some userId
  | OpUpdateNote _ _ userId _ => Some userId
  | OpDeleteNote _ userId => Some userId
  | _ => None
  end.

(** [Array.prototype.join] with a separator of one code unit. *)
Fixpoint join (sep : N) (parts : list jsstring) : jsstring :=
  match parts with
  | [] => []
  | [part] => part
  | part :: rest => part ++ sep :: join sep rest
  end.

(** The note that stands in the place of [note] once [updated] has
    overwritten the entry of [noteId]. *)
Definition replaceNote (noteId : jsstring) (updated note : Note) : Note :=
  if decide (note.(Note.id) = noteId) then updated else note.

(** The store after alice and bob have logged in and alice's note
    "Shop"/"milk" has been created: the tokens "fake_t1" of alice and
    "fake_t2" of bob, and the note "note_n1". *)
Definition sessionStore : Storage :=
  let st1 :=
    (routes.mock_login (str "t1") (JsString (str "alice")) emptyStorage).2 in
  let st2 :=
    (routes.mock_login (str "t2") (JsString (str " bob ")) st1).2 in
  (notesService.createNote (str "n1") 1000 (str "alice")
     {| create_title := Some (str "Shop");
        create_body := Some (str "milk") |} st2).2.

(** * Properties *)

(** ** Strings *)

Example trim_inner_space : trim (str "  a b  ") = str "a b".
Proof. reflexivity. Qed.

Example trim_unicode_space :
  trim [0xA0; 0x2003; 0x41; 0xFEFF; 0x0A]%N = [0x41]%N.
Proof. reflexivity. Qed.

Example validateTitle_A : notesService.validateTitle (Some (str "A")) = None.
Proof. reflexivity. Qed.

Lemma trimStart_nil_iff (s : jsstring) :
  trimStart s = [] ↔ forallb isWhiteSpace s = true.
Proof.
  induction s as [|c s IH]; simpl; [done|].
  destruct (isWhiteSpace c); simpl; [exact IH|].
  split; discriminate.
Qed.

Lemma trimStart_head (s : jsstring) c rest :
  trimStart s = c :: rest → isWhiteSpace c = false.
Proof.
  induction s as [|d s IH]; simpl; [discriminate|].
  destruct (isWhiteSpace d) eqn:Hd; [exact IH|].
  intros [= <- _]. exact Hd.
Qed.

Lemma forallb_rev {A} (f : A → bool) (l : list A) :
  forallb f (rev l) = forallb f l.
Proof.
  induction l as [|x l IH]; simpl; [done|].
  rewrite forallb_app, IH. simpl. destruct (f x), (forallb f l); done.
Qed.

(** A string trims to the empty string exactly when it consists of white
    space only (the empty string included). *)
Lemma trim_nil_iff (s : jsstring) :
  trim s = [] ↔ forallb isWhiteSpace s = true.
Proof.
  unfold trim, trimEnd. split.
  - intros H. apply (f_equal (@rev N)) in H. rewrite rev_involutive in H.
    simpl in H. apply trimStart_nil_iff in H. rewrite forallb_rev in H.
    destruct (trimStart s) as [|c rest] eqn:Hs.
    + by apply trimStart_nil_iff.
    + apply trimStart_head in Hs. simpl in H. by rewrite Hs in H.
  - intros H. apply trimStart_nil_iff in H. by rewrite H.
Qed.

Lemma length_trimStart (s : jsstring) : (length (trimStart s) ≤ length s)%nat.
Proof.
  induction s as [|c s IH]; simpl; [lia|].
  destruct (isWhiteSpace c); simpl; lia.
Qed.

Lemma length_trim (s : jsstring) : (length (trim s) ≤ length s)%nat.
Proof.
  unfold trim, trimEnd. rewrite length_rev.
  etransitivity; [apply length_trimStart|]. rewrite length_rev.
  apply length_trimStart.
Qed.

(** ** [validateTitle] and [validateBody] *)

Lemma validateTitle_missing :
  notesService.validateTitle None = Some (str "Title is required").
Proof. reflexivity. Qed.

Lemma validateTitle_blank (t : jsstring) :
  forallb isWhiteSpace t = true →
  notesService.validateTitle (Some t) = Some (str "Title is required").
Proof.
  intros H. apply trim_nil_iff in H. unfold notesService.validateTitle.
  destruct t; [done|]. by rewrite H.
Qed.

Lemma validateTitle_too_long (t : jsstring) :
  (80 < length (trim t))%nat →
  notesService.validateTitle (Some t)
  = Some (str "Title must not exceed 80 characters").
Proof.
  intros H. unfold notesService.validateTitle.
  destruct t as [|c t]; [simpl in H; lia|].
  destruct (Nat.eqb_spec (length (trim (c :: t))) 0); [lia|].
  destruct (Nat.ltb_spec 80 (length (trim (c :: t)))); [done|lia].
Qed.

Lemma validateTitle_ok (t : jsstring) :
  (1 ≤ length (trim t) ≤ 80)%nat →
  notesService.validateTitle (Some t) = None.
Proof.
  intros H. unfold notesService.validateTitle.
  destruct t as [|c t]; [simpl in H; lia|].
  destruct (Nat.eqb_spec (length (trim (c :: t))) 0); [lia|].
  destruct (Nat.ltb_spec 80 (length (trim (c :: t)))); [lia|done].
Qed.

Lemma validateTitle_None_inv (title : option jsstring) :
  notesService.validateTitle title = None →
  ∃ t, title = Some t ∧ (1 ≤ length (trim t) ≤ 80)%nat.
Proof.
  unfold notesService.validateTitle.
  destruct title as [[|c t]|]; [discriminate| |discriminate].
  destruct (Nat.eqb_spec (length (trim (c :: t))) 0); [discriminate|].
  destruct (Nat.ltb_spec 80 (length (trim (c :: t)))); [discriminate|].
  intros _. exists (c :: t). split; [done|lia].
Qed.

Lemma validateBody_too_long (b : jsstring) :
  (500 < length b)%nat →
  notesService.validateBody (Some b)
  = Some (str "Body must not exceed 500 characters").
Proof.
  intros H. unfold notesService.validateBody.
  destruct (Nat.ltb_spec 500 (length b)); [done|lia].
Qed.

Lemma validateBody_None_iff (body : option jsstring) :
  notesService.validateBody body = None
  ↔ ∀ b, body = Some b → (length b ≤ 500)%nat.
Proof.
  unfold notesService.validateBody. destruct body as [b|].
  - destruct (Nat.ltb_spec 500 (length b)); split; try done.
    + intros H'. specialize (H' b eq_refl). lia.
    + intros _ ? [= <-]. done.
  - split; [intros _ ? [=]|done].
Qed.

(** ** Unfolding the monad *)

Ltac run_M :=
  unfold notesService.createNote, notesService.updateNote,
    notesService.deleteNote, notesService.getNote,
    notesService.getUserNotes, authService.generateToken,
    authService.validateToken, storage.getNote, storage.saveNote,
    storage.deleteNote, storage.saveToken, storage.getUserIdByToken,
    bind, ret in *.

Lemma getNote_eq (noteId : jsstring) (st : Storage) :
  notesService.getNote noteId st = (JSMap.get noteId st.(notes), st).
Proof. reflexivity. Qed.

Lemma getNote_Some (noteId : jsstring) (st : Storage) (note : Note) :
  notesService.getNote noteId st = (Some note, st)
  ↔ JSMap.get noteId st.(notes) = Some note.
Proof. rewrite getNote_eq. split; [by intros [= ->]|by intros ->]. Qed.

Lemma getNote_None (noteId : jsstring) (st : Storage) :
  notesService.getNote noteId st = (None, st)
  ↔ JSMap.get noteId st.(notes) = None.
Proof. rewrite getNote_eq. split; [by intros [= ->]|by intros ->]. Qed.

(** ** Validation order of [createNote] *)

(** C2: [createNote] validates the title before the body and reports the
    first failure: a missing, empty or white-space-only title gives
    "Title is required"; a title longer than 80 after trimming gives
    "Title must not exceed 80 characters"; both whatever the body is.
    With a valid title, a body of raw length above 500 gives "Body must
    not exceed 500 characters".  No other message is ever reported, and a
    rejected call leaves the store as it was. *)
Theorem createNote_first_failure
    (uuid : jsstring) (now : Z) (userId : jsstring) (dto : CreateNoteDto)
    (st : Storage) :
  ((dto.(create_title) = None
    ∨ ∃ t, dto.(create_title) = Some t ∧ forallb isWhiteSpace t = true) →
   notesService.createNote uuid now userId dto st
   = (CreateError (str "Title is required"), st))
  ∧ (∀ t, dto.(create_title) = Some t → (80 < length (trim t))%nat →
     notesService.createNote uuid now userId dto st
     = (CreateError (str "Title must not exceed 80 characters"), st))
  ∧ (∀ t b, dto.(create_title) = Some t →
     (1 ≤ length (trim t) ≤ 80)%nat →
     dto.(create_body) = Some b → (500 < length b)%nat →
     notesService.createNote uuid now userId dto st
     = (CreateError (str "Body must not exceed 500 characters"), st))
  ∧ (∀ e st', notesService.createNote uuid now userId dto st
              = (CreateError e, st') →
     st' = st
     ∧ (e = str "Title is required"
        ∨ e = str "Title must not exceed 80 characters"
        ∨ e = str "Body must not exceed 500 characters")).
Proof.
  destruct dto as [title body]; simpl. split; [|split; [|split]].
  - intros [->|(t & -> & Hws)]; run_M; simpl.
    + done.
    + by rewrite (validateTitle_blank t Hws).
  - intros t -> Hlen. run_M; simpl.
    by rewrite (validateTitle_too_long t Hlen).
  - intros t b -> Hlen -> Hb. run_M; simpl.
    rewrite (validateTitle_ok t Hlen).
    by rewrite (validateBody_too_long b Hb).
  - intros e st'. run_M; simpl.
    destruct (notesService.validateTitle title) as [e'|] eqn:Ht.
    + intros [= <- <-]. split; [done|].
      unfold notesService.validateTitle in Ht.
      destruct title as [[|c t]|]; try (left; congruence).
      destruct (_ =? _)%nat; [left; congruence|].
      destruct (_ <? _)%nat; [right; left; congruence|done].
    + destruct (notesService.validateBody body) as [e'|] eqn:Hb; [|done].
      intros [= <- <-]. split; [done|].
      unfold notesService.validateBody in Hb.
      destruct body as [b|]; [|done].
      destruct (_ <? _)%nat; [right; right; congruence|done].
Qed.

(** Both fields invalid at once (a blank title with a 501-unit body, an
    81-unit title with a 501-unit body), and a valid title with a
    501-unit body. *)
Lemma createNote_first_failure_witness :
  notesService.createNote (str "u1") 0 (str "alice")
    {| create_title := Some (str "   ");
       create_body := Some (replicate 501 120%N) |} emptyStorage
  = (CreateError (str "Title is required"), emptyStorage)
  ∧ notesService.createNote (str "u1") 0 (str "alice")
      {| create_title := Some (replicate 81 120%N);
         create_body := Some (replicate 501 120%N) |} emptyStorage
    = (CreateError (str "Title must not exceed 80 characters"), emptyStorage)
  ∧ notesService.createNote (str "u1") 0 (str "alice")
      {| create_title := Some (str "T");
         create_body := Some (replicate 501 120%N) |} emptyStorage
    = (CreateError (str "Body must not exceed 500 characters"), emptyStorage).
Proof.
  split; [|split].
  - apply (createNote_first_failure (str "u1") 0 (str "alice")
             {| create_title := Some (str "   ");
                create_body := Some (replicate 501 120%N) |} emptyStorage).
    right. exists (str "   "). split; reflexivity.
  - apply (createNote_first_failure (str "u1") 0 (str "alice")
             {| create_title := Some (replicate 81 120%N);
                create_body := Some (replicate 501 120%N) |} emptyStorage
             ) with (t := replicate 81 120%N); [reflexivity|].
    vm_compute. lia.
  - apply (createNote_first_failure (str "u1") 0 (str "alice")
             {| create_title := Some (str "T");
                create_body := Some (replicate 501 120%N) |} emptyStorage
             ) with (t := str "T") (b := replicate 501 120%N);
      [reflexivity|vm_compute; lia|reflexivity|vm_compute; lia].
Defined.

(** ** Order of the checks in [updateNote] *)

Lemma aliceStore_get :
  notesService.getNote (str "note_n1") aliceStore = (Some aliceNote, aliceStore).
Proof. reflexivity. Qed.

Lemma updateNote_title_rejected now noteId userId dto st note t e :
  JSMap.get noteId st.(notes) = Some note →
  note.(Note.userId) = userId →
  dto.(update_title) = Some t →
  notesService.validateTitle (Some t) = Some e →
  notesService.updateNote now noteId userId dto st = (UpdateError e, st).
Proof.
  intros Hget Hown Htitle Ht. run_M. rewrite Hget.
  rewrite decide_False by (by intros ?). rewrite Htitle. cbn.
  by rewrite Ht.
Qed.

(** C1: [updateNote] reports the first applicable failure in the order
    existence, ownership, "No updatable fields provided", title, body:
    an unknown id is notFound whatever the user and the fields are; a
    note of another owner is forbidden whatever the fields are; with
    both fields omitted the validation error is "No updatable fields
    provided"; a supplied title that [validateTitle] rejects is reported
    whatever the body is; the body's error is reported only when the
    title is omitted or valid. *)
Theorem updateNote_first_failure
    (now : Z) (noteId userId : jsstring) (dto : UpdateNoteDto)
    (st : Storage) :
  (notesService.getNote noteId st = (None, st) →
   notesService.updateNote now noteId userId dto st = (UpdateNotFound, st))
  ∧ (∀ note, notesService.getNote noteId st = (Some note, st) →
     note.(Note.userId) ≠ userId →
     notesService.updateNote now noteId userId dto st
     = (UpdateForbidden, st))
  ∧ (∀ note, notesService.getNote noteId st = (Some note, st) →
     note.(Note.userId) = userId →
     dto.(update_title) = None → dto.(update_body) = None →
     notesService.updateNote now noteId userId dto st
     = (UpdateError (str "No updatable fields provided"), st))
  ∧ (∀ note t e, notesService.getNote noteId st = (Some note, st) →
     note.(Note.userId) = userId →
     dto.(update_title) = Some t →
     notesService.validateTitle (Some t) = Some e →
     notesService.updateNote now noteId userId dto st = (UpdateError e, st))
  ∧ (∀ note b e, notesService.getNote noteId st = (Some note, st) →
     note.(Note.userId) = userId →
     (dto.(update_title) = None
      ∨ notesService.validateTitle dto.(update_title) = None) →
     dto.(update_body) = Some b →
     notesService.validateBody (Some b) = Some e →
     notesService.updateNote now noteId userId dto st = (UpdateError e, st)).
Proof.
  destruct dto as [title body]; simpl.
  split; [|split; [|split; [|split]]].
  - intros H%getNote_None. run_M. by rewrite H.
  - intros note H%getNote_Some Hown. run_M. rewrite H.
    by destruct (decide _).
  - intros note H%getNote_Some Hown -> ->. run_M. rewrite H.
    by destruct (decide _).
  - intros note t e H%getNote_Some Hown Htitle Ht.
    by apply (updateNote_title_rejected now noteId userId
                {| update_title := title; update_body := body |} st note t e).
  - intros note b e H%getNote_Some Hown Ht -> Hb. run_M. rewrite H.
    destruct (decide _); [done|]. simpl.
    destruct Ht as [->|Ht]; simpl.
    + by rewrite Hb.
    + destruct title as [t|]; simpl; [rewrite Ht|]; by rewrite Hb.
Qed.

(** Several violations at once on [aliceStore]: an unknown id with a
    foreign user and blank title; bob with a blank title and a long
    body; alice with no field; alice with a blank title and a long body;
    alice with a valid title and a long body. *)
Lemma updateNote_first_failure_witness :
  notesService.updateNote 2000 (str "note_zz") (str "bob")
    {| update_title := Some (str " ");
       update_body := Some (replicate 501 120%N) |} aliceStore
  = (UpdateNotFound, aliceStore)
  ∧ notesService.updateNote 2000 (str "note_n1") (str "bob")
      {| update_title := Some (str " ");
         update_body := Some (replicate 501 120%N) |} aliceStore
    = (UpdateForbidden, aliceStore)
  ∧ notesService.updateNote 2000 (str "note_n1") (str "alice")
      {| update_title := None; update_body := None |} aliceStore
    = (UpdateError (str "No updatable fields provided"), aliceStore)
  ∧ notesService.updateNote 2000 (str "note_n1") (str "alice")
      {| update_title := Some (str " ");
         update_body := Some (replicate 501 120%N) |} aliceStore
    = (UpdateError (str "Title is required"), aliceStore)
  ∧ notesService.updateNote 2000 (str "note_n1") (str "alice")
      {| update_title := Some (str "New");
         update_body := Some (replicate 501 120%N) |} aliceStore
    = (UpdateError (str "Body must not exceed 500 characters"), aliceStore).
Proof.
  split; [|split; [|split; [|split]]].
  - apply (updateNote_first_failure 2000 (str "note_zz") (str "bob")
             {| update_title := Some (str " ");
                update_body := Some (replicate 501 120%N) |} aliceStore).
    reflexivity.
  - apply (updateNote_first_failure 2000 (str "note_n1") (str "bob")
             {| update_title := Some (str " ");
                update_body := Some (replicate 501 120%N) |} aliceStore)
      with (note := aliceNote); [reflexivity|].
    vm_compute. discriminate.
  - apply (updateNote_first_failure 2000 (str "note_n1") (str "alice")
             {| update_title := None; update_body := None |} aliceStore)
      with (note := aliceNote); reflexivity.
  - apply (updateNote_first_failure 2000 (str "note_n1") (str "alice")
             {| update_title := Some (str " ");
                update_body := Some (replicate 501 120%N) |} aliceStore)
      with (note := aliceNote) (t := str " "); reflexivity.
  - apply (updateNote_first_failure 2000 (str "note_n1") (str "alice")
             {| update_title := Some (str "New");
                update_body := Some (replicate 501 120%N) |} aliceStore)
      with (note := aliceNote) (b := replicate 501 120%N);
      [reflexivity|reflexivity|right; reflexivity|reflexivity|reflexivity].
Defined.

(** ** [Map] laws *)

Section JSMapLaws.
Context {K V : Type} `{EqDecision K}.
Implicit Types (k : K) (v : V) (m : JSMap.t K V).

Lemma get_set_eq k v m : JSMap.get k (JSMap.set k v m) = Some v.
Proof.
  induction m as [|[k' v'] m IH]; simpl.
  - by rewrite decide_True.
  - destruct (decide (k' = k)) as [->|Hne]; simpl.
    + by rewrite decide_True.
    + by rewrite decide_False.
Qed.

Lemma get_set_ne k k' v m :
  k ≠ k' → JSMap.get k' (JSMap.set k v m) = JSMap.get k' m.
Proof.
  intros Hne. induction m as [|[k0 v0] m IH]; simpl.
  - by rewrite decide_False.
  - destruct (decide (k0 = k)) as [->|Hk0]; simpl.
    + by rewrite !decide_False.
    + by rewrite IH.
Qed.

Lemma get_delete_ne k k' m :
  k ≠ k' → JSMap.get k' (JSMap.delete k m) = JSMap.get k' m.
Proof.
  intros Hne. induction m as [|[k0 v0] m IH]; simpl; [done|].
  destruct (decide (k0 = k)) as [->|Hk0]; simpl.
  - by rewrite decide_False.
  - by rewrite IH.
Qed.

Lemma get_None_keys k m : JSMap.get k m = None ↔ k ∉ JSMap.keys m.
Proof.
  induction m as [|[k0 v0] m IH]; simpl.
  - split; [intros _; apply not_elem_of_nil|done].
  - rewrite not_elem_of_cons. destruct (decide (k0 = k)) as [->|Hk0].
    + split; [done|]. by intros [? _].
    + rewrite IH. split; [by intros ?|by intros [_ ?]].
Qed.

Lemma get_Some_elem k v m : JSMap.get k m = Some v → (k, v) ∈ m.
Proof.
  induction m as [|[k0 v0] m IH]; simpl; [done|].
  destruct (decide (k0 = k)) as [->|Hk0].
  - intros [= ->]. left.
  - intros H'. right. by apply IH.
Qed.

Lemma elem_keys k v m : (k, v) ∈ m → k ∈ JSMap.keys m.
Proof. intros H'. by apply (list_elem_of_fmap_2 fst) in H'. Qed.

Lemma get_delete_eq k m :
  JSMap.wf m → JSMap.get k (JSMap.delete k m) = None.
Proof.
  unfold JSMap.wf. induction m as [|[k0 v0] m IH]; simpl; [done|].
  rewrite NoDup_cons. intros [Hk0 Hnd].
  destruct (decide (k0 = k)) as [->|Hne]; simpl.
  - by apply get_None_keys.
  - rewrite decide_False by done. by apply IH.
Qed.

Lemma delete_absent k m : JSMap.get k m = None → JSMap.delete k m = m.
Proof.
  induction m as [|[k0 v0] m IH]; simpl; [done|].
  destruct (decide (k0 = k)); [done|]. intros H'. by rewrite IH.
Qed.

Lemma set_fresh k v m :
  JSMap.get k m = None → JSMap.set k v m = m ++ [(k, v)].
Proof.
  induction m as [|[k0 v0] m IH]; simpl; [done|].
  destruct (decide (k0 = k)); [done|]. intros H'. by rewrite IH.
Qed.

Lemma keys_set_present k v m :
  k ∈ JSMap.keys m → JSMap.keys (JSMap.set k v m) = JSMap.keys m.
Proof.
  induction m as [|[k0 v0] m IH]; simpl.
  - intros H'. by apply elem_of_nil in H'.
  - destruct (decide (k0 = k)) as [->|Hne]; simpl; [done|].
    rewrite elem_of_cons. intros [->|H']; [done|]. by rewrite IH.
Qed.

Lemma elem_set k v k' v' m :
  (k', v') ∈ JSMap.set k v m → (k', v') = (k, v) ∨ (k', v') ∈ m.
Proof.
  induction m as [|[k0 v0] m IH]; simpl.
  - rewrite list_elem_of_singleton. by left.
  - destruct (decide (k0 = k)) as [->|Hne]; rewrite !elem_of_cons.
    + intros [?|?]; [by left|by right; right].
    + intros [?|H']; [by right; left|].
      destruct (IH H') as [?|?]; [by left|by right; right].
Qed.

Lemma elem_set_other k v k' v' m :
  k' ≠ k → (k', v') ∈ m → (k', v') ∈ JSMap.set k v m.
Proof.
  intros Hne. induction m as [|[k0 v0] m IH]; simpl.
  - intros H'. by apply elem_of_nil in H'.
  - destruct (decide (k0 = k)) as [->|Hk0]; rewrite !elem_of_cons.
    + intros [[= ? ?]|?]; [done|by right].
    + intros [?|?]; [by left|right; by apply IH].
Qed.

Lemma elem_set_self k v m : (k, v) ∈ JSMap.set k v m.
Proof. apply get_Some_elem, get_set_eq. Qed.

Lemma elem_delete k k' v' m :
  (k', v') ∈ JSMap.delete k m → (k', v') ∈ m.
Proof.
  induction m as [|[k0 v0] m IH]; simpl; [done|].
  destruct (decide (k0 = k)) as [->|Hne]; rewrite ?elem_of_cons.
  - by right.
  - intros [?|?]; [by left|right; by apply IH].
Qed.

Lemma wf_set k v m : JSMap.wf m → JSMap.wf (JSMap.set k v m).
Proof.
  unfold JSMap.wf. intros Hwf.
  destruct (JSMap.get k m) as [v0|] eqn:Hget.
  - rewrite keys_set_present; [done|].
    eapply elem_keys, get_Some_elem, Hget.
  - rewrite set_fresh by done. unfold JSMap.keys. rewrite map_app. simpl.
    apply NoDup_app. split; [done|]. split; [|apply NoDup_singleton].
    intros x Hx ->%list_elem_of_singleton.
    by apply get_None_keys in Hget.
Qed.

Lemma wf_delete k m : JSMap.wf m → JSMap.wf (JSMap.delete k m).
Proof.
  unfold JSMap.wf. induction m as [|[k0 v0] m IH]; simpl; [done|].
  rewrite NoDup_cons. intros [Hk0 Hnd].
  destruct (decide (k0 = k)) as [->|Hne]; simpl; [done|].
  apply NoDup_cons. split; [|by apply IH].
  intros Hin. apply Hk0. apply list_elem_of_fmap in Hin as ([k1 v1] & -> & Hin).
  eapply elem_keys, elem_delete, Hin.
Qed.
End JSMapLaws.

(** ** [sort] with the comparator of [getNotesByUser] *)

Lemma sort_insert_Permutation {A} (cmp : A → A → Z) x l :
  Permutation (sort_insert cmp x l) (x :: l).
Proof.
  induction l as [|y l IH]; simpl; [done|].
  destruct (cmp x y <=? 0); [done|].
  rewrite IH. apply perm_swap.
Qed.

Lemma array_sort_Permutation {A} (cmp : A → A → Z) l :
  Permutation (array_sort cmp l) l.
Proof.
  induction l as [|x l IH]; simpl; [done|].
  rewrite sort_insert_Permutation. by constructor.
Qed.

Lemma sort_insert_newestFirst x l :
  StronglySorted newestFirst l →
  StronglySorted newestFirst (sort_insert storage.byCreatedAtDesc x l).
Proof.
  induction 1 as [|y l Hl IH Hy]; simpl.
  - repeat constructor.
  - destruct (Z.leb_spec (storage.byCreatedAtDesc x y) 0) as [Hle|Hgt].
    + constructor; [by constructor|].
      constructor.
      * unfold newestFirst, storage.byCreatedAtDesc in *. lia.
      * eapply Forall_impl; [exact Hy|]. intros z Hz.
        unfold newestFirst, storage.byCreatedAtDesc in *. lia.
    + constructor; [exact IH|].
      rewrite sort_insert_Permutation. constructor; [|exact Hy].
      unfold newestFirst, storage.byCreatedAtDesc in *. lia.
  Qed.

Lemma array_sort_newestFirst l :
  StronglySorted newestFirst (array_sort storage.byCreatedAtDesc l).
Proof.
  induction l as [|x l IH]; simpl; [constructor|].
  by apply sort_insert_newestFirst.
Qed.

(** In a list sorted newest first, a strictly newer note stands before
    an older one. *)
Lemma newestFirst_before (l : list Note) (a b : Note) :
  StronglySorted newestFirst l → a ∈ l → b ∈ l →
  getTime b.(Note.createdAt) < getTime a.(Note.createdAt) →
  ∃ l1 l2 l3, l = l1 ++ a :: l2 ++ b :: l3.
Proof.
  induction 1 as [|x l Hl IH Hx]; intros Ha Hb Hlt.
  - by apply elem_of_nil in Ha.
  - apply elem_of_cons in Ha as [->|Ha].
    + apply elem_of_cons in Hb as [->|Hb]; [lia|].
      apply list_elem_of_split in Hb as (l2 & l3 & ->).
      by exists [], l2, l3.
    + apply elem_of_cons in Hb as [->|Hb].
      * rewrite Forall_forall in Hx. specialize (Hx a Ha).
        unfold newestFirst in Hx. lia.
      * destruct (IH Ha Hb Hlt) as (l1 & l2 & l3 & ->).
        by exists (x :: l1), l2, l3.
Qed.

(** The [forEach] loop collects the user's notes in insertion order. *)
Lemma forEach_push_filter (userId : jsstring) (m : JSMap.t jsstring Note)
    (acc : list Note) :
  fold_left
    (fun userNotes '(_, note) =>
       if decide (note.(Note.userId) = userId)
       then userNotes ++ [note] else userNotes) m acc
  = acc ++ filter (fun note => note.(Note.userId) = userId) (JSMap.values m).
Proof.
  revert acc. induction m as [|[k n] m IH]; intros acc; simpl.
  - by rewrite app_nil_r.
  - rewrite IH, filter_cons. simpl. destruct (decide _); [|done].
    by rewrite <- app_assoc.
Qed.

Lemma getUserNotes_eq (userId : jsstring) (st : Storage) :
  notesService.getUserNotes userId st
  = (array_sort storage.byCreatedAtDesc
       (filter (fun note => note.(Note.userId) = userId)
          (JSMap.values st.(notes))), st).
Proof.
  unfold notesService.getUserNotes, storage.getNotesByUser.
  by rewrite forEach_push_filter.
Qed.

(** What a successful [createNote] returns and stores. *)
Lemma createNote_success_inv uuid now userId dto st note st' :
  notesService.createNote uuid now userId dto st = (CreateNote note, st') →
  note.(Note.id) = str "note_" ++ uuid
  ∧ note.(Note.userId) = userId
  ∧ note.(Note.createdAt) = toISOString now
  ∧ st'.(notes) = JSMap.set (str "note_" ++ uuid) note st.(notes)
  ∧ st'.(tokens) = st.(tokens).
Proof.
  run_M.
  destruct (notesService.validateTitle _); [discriminate|].
  destruct (notesService.validateBody _); [discriminate|].
  by intros [= <- <-].
Qed.

Lemma elem_values_userNotes (userId : jsstring) (st : Storage) k note :
  (k, note) ∈ st.(notes) → note.(Note.userId) = userId →
  note ∈ (notesService.getUserNotes userId st).1.
Proof.
  intros Hin Hown. rewrite getUserNotes_eq. simpl.
  rewrite array_sort_Permutation. apply list_elem_of_filter. split; [done|].
  by apply (list_elem_of_fmap_2 snd) in Hin.
Qed.

Lemma newestFirst_before3 (l : list Note) (a b c : Note) :
  StronglySorted newestFirst l → a ∈ l → b ∈ l → c ∈ l →
  getTime c.(Note.createdAt) < getTime b.(Note.createdAt) →
  getTime b.(Note.createdAt) < getTime a.(Note.createdAt) →
  ∃ l0 l1 l2 l3, l = l0 ++ a :: l1 ++ b :: l2 ++ c :: l3.
Proof.
  induction 1 as [|x l Hl IH Hx]; intros Ha Hb Hc Hcb Hba.
  - by apply elem_of_nil in Ha.
  - rewrite Forall_forall in Hx. unfold newestFirst in Hx.
    assert (Hb' : b ∈ l).
    { apply elem_of_cons in Hb as [->|Hb]; [|done].
      apply elem_of_cons in Ha as [->|Ha]; [lia|].
      specialize (Hx a Ha). lia. }
    assert (Hc' : c ∈ l).
    { apply elem_of_cons in Hc as [->|Hc]; [|done].
      specialize (Hx b Hb'). lia. }
    apply elem_of_cons in Ha as [->|Ha].
    + destruct (newestFirst_before l b c Hl Hb' Hc' Hcb) as (l1 & l2 & l3 & ->).
      by exists [], l1, l2, l3.
    + destruct (IH Ha Hb' Hc' Hcb Hba) as (l0 & l1 & l2 & l3 & ->).
      by exists (x :: l0), l1, l2, l3.
Qed.

Lemma note_id_inj (uuid1 uuid2 : jsstring) :
  uuid1 ≠ uuid2 → str "note_" ++ uuid1 ≠ str "note_" ++ uuid2.
Proof. intros Hne Heq. by apply app_inv_head in Heq. Qed.

(** ** Listing *)

(** C3 (as amended): [getUserNotes] leaves the store as it is and returns
    all and only the notes of the user, newest creation timestamp first.
    When three notes are created for the user in sequence at strictly
    increasing clock readings, under distinct identifiers, the list shows
    them in reverse creation order; from the empty store the list is
    exactly these three, newest first. *)
Theorem getUserNotes_newest_first (userId : jsstring) (st : Storage) :
  (notesService.getUserNotes userId st).2 = st
  ∧ (∀ note, note ∈ (notesService.getUserNotes userId st).1
       ↔ note ∈ JSMap.values st.(notes) ∧ note.(Note.userId) = userId)
  ∧ Permutation (notesService.getUserNotes userId st).1
      (filter (fun note => note.(Note.userId) = userId)
         (JSMap.values st.(notes)))
  ∧ StronglySorted newestFirst (notesService.getUserNotes userId st).1
  ∧ (∀ uuid1 uuid2 uuid3 now1 now2 now3 dto1 dto2 dto3 n1 n2 n3 st1 st2 st3,
       notesService.createNote uuid1 now1 userId dto1 st = (CreateNote n1, st1) →
       notesService.createNote uuid2 now2 userId dto2 st1 = (CreateNote n2, st2) →
       notesService.createNote uuid3 now3 userId dto3 st2 = (CreateNote n3, st3) →
       uuid1 ≠ uuid2 → uuid1 ≠ uuid3 → uuid2 ≠ uuid3 →
       now1 < now2 → now2 < now3 →
       (∃ l0 l1 l2 l3,
          (notesService.getUserNotes userId st3).1
          = l0 ++ n3 :: l1 ++ n2 :: l2 ++ n1 :: l3)
       ∧ (st.(notes) = [] →
          (notesService.getUserNotes userId st3).1 = [n3; n2; n1])).
Proof.
  split; [by rewrite getUserNotes_eq|].
  split.
  { intros note. rewrite getUserNotes_eq. simpl.
    rewrite array_sort_Permutation, list_elem_of_filter. tauto. }
  split; [rewrite getUserNotes_eq; apply array_sort_Permutation|].
  split; [rewrite getUserNotes_eq; apply array_sort_newestFirst|].
  intros uuid1 uuid2 uuid3 now1 now2 now3 dto1 dto2 dto3 n1 n2 n3 st1 st2 st3
    H1 H2 H3 H12 H13 H23 Hlt12 Hlt23.
  apply createNote_success_inv in H1 as (Hid1 & Hu1 & Ht1 & Hs1 & _).
  apply createNote_success_inv in H2 as (Hid2 & Hu2 & Ht2 & Hs2 & _).
  apply createNote_success_inv in H3 as (Hid3 & Hu3 & Ht3 & Hs3 & _).
  apply note_id_inj in H12, H13, H23.
  assert (Hin1 : (str "note_" ++ uuid1, n1) ∈ st3.(notes)).
  { rewrite Hs3, Hs2, Hs1.
    do 2 (apply elem_set_other; [done|]). apply elem_set_self. }
  assert (Hin2 : (str "note_" ++ uuid2, n2) ∈ st3.(notes)).
  { rewrite Hs3, Hs2. apply elem_set_other; [done|]. apply elem_set_self. }
  assert (Hin3 : (str "note_" ++ uuid3, n3) ∈ st3.(notes)).
  { rewrite Hs3. apply elem_set_self. }
  assert (Hdec : ∃ l0 l1 l2 l3,
             (notesService.getUserNotes userId st3).1
             = l0 ++ n3 :: l1 ++ n2 :: l2 ++ n1 :: l3).
  { apply newestFirst_before3.
    - rewrite getUserNotes_eq. apply array_sort_newestFirst.
    - by eapply elem_values_userNotes.
    - by eapply elem_values_userNotes.
    - by eapply elem_values_userNotes.
    - rewrite Ht1, Ht2. simpl. lia.
    - rewrite Ht2, Ht3. simpl. lia. }
  split; [exact Hdec|].
  intros Hempty. destruct Hdec as (l0 & l1 & l2 & l3 & Hdec).
  assert (Hlen : (length (notesService.getUserNotes userId st3).1 ≤ 3)%nat).
  { rewrite getUserNotes_eq. simpl. rewrite array_sort_Permutation.
    etransitivity; [apply length_filter|].
    unfold JSMap.values. rewrite length_map, Hs3, Hs2, Hs1, Hempty. simpl.
    rewrite decide_False by done. simpl. rewrite decide_False by done.
    simpl. rewrite decide_False by done. simpl. lia. }
  rewrite Hdec in Hlen |- *.
  rewrite !length_app in Hlen. simpl in Hlen.
  rewrite !length_app in Hlen. simpl in Hlen.
  rewrite !length_app in Hlen. simpl in Hlen.
  destruct l0; [|simpl in Hlen; lia].
  destruct l1; [|simpl in Hlen; lia].
  destruct l2; [|simpl in Hlen; lia].
  destruct l3; [|simpl in Hlen; lia].
  done.
Qed.

Lemma getUserNotes_newest_first_witness :
  (notesService.getUserNotes (str "alice") (threeNotes 1000 2000 3000)).1
  = [plainNote (str "c") (str "third") 3000;
     plainNote (str "b") (str "second") 2000;
     plainNote (str "a") (str "first") 1000].
Proof.
  refine (proj2 (proj2 (proj2 (proj2 (proj2
    (getUserNotes_newest_first (str "alice") emptyStorage))))
    (str "a") (str "b") (str "c") 1000 2000 3000
    {| create_title := Some (str "first"); create_body := None |}
    {| create_title := Some (str "second"); create_body := None |}
    {| create_title := Some (str "third"); create_body := None |}
    (plainNote (str "a") (str "first") 1000)
    (plainNote (str "b") (str "second") 2000)
    (plainNote (str "c") (str "third") 3000)
    _ _ (threeNotes 1000 2000 3000)
    eq_refl eq_refl eq_refl _ _ _ _ _) eq_refl);
    first [lia | vm_compute; discriminate].
Defined.

(** C3 (as stated) fails when the clock does not advance between the
    creations: the three notes carry the same timestamp, the stable sort
    keeps the insertion order, and the list is oldest first. *)
Lemma getUserNotes_same_instant_oldest_first :
  (notesService.getUserNotes (str "alice") (threeNotes 1000 1000 1000)).1
  = [plainNote (str "a") (str "first") 1000;
     plainNote (str "b") (str "second") 1000;
     plainNote (str "c") (str "third") 1000]
  ∧ (notesService.getUserNotes (str "alice") (threeNotes 1000 1000 1000)).1
    ≠ [plainNote (str "c") (str "third") 1000;
       plainNote (str "b") (str "second") 1000;
       plainNote (str "a") (str "first") 1000].
Proof. split; [reflexivity|vm_compute; discriminate]. Qed.

(** ** Tokens *)

(** C4: a token issued for a non-empty user identifier resolves, right
    after, to that identifier. *)
Theorem generateToken_validateToken
    (uuid userId : jsstring) (st : Storage) :
  userId ≠ [] →
  authService.validateToken (authService.generateToken uuid userId st).1
    (authService.generateToken uuid userId st).2
  = (Some userId, (authService.generateToken uuid userId st).2).
Proof.
  intros Hne. run_M. cbn. rewrite lookup_insert_eq.
  by destruct userId.
Qed.

Lemma generateToken_validateToken_witness :
  authService.validateToken
    (authService.generateToken (str "t1") (str "alice") emptyStorage).1
    (authService.generateToken (str "t1") (str "alice") emptyStorage).2
  = (Some (str "alice"),
     (authService.generateToken (str "t1") (str "alice") emptyStorage).2).
Proof.
  apply (generateToken_validateToken (str "t1") (str "alice") emptyStorage).
  vm_compute. discriminate.
Defined.

(** C10: [validateToken] answers [null] exactly when the token has no
    entry or is bound to the empty user identifier; a token issued for
    the empty identifier is stored and still resolves to [null]. *)
Theorem validateToken_empty_user (uuid token : jsstring) (st : Storage) :
  ((authService.validateToken token st).1 = None
   ↔ st.(tokens) !! token = None ∨ st.(tokens) !! token = Some [])
  ∧ (authService.validateToken token st).2 = st
  ∧ (authService.generateToken uuid [] st).2.(tokens)
      !! (authService.generateToken uuid [] st).1 = Some []
  ∧ authService.validateToken (authService.generateToken uuid [] st).1
      (authService.generateToken uuid [] st).2
    = (None, (authService.generateToken uuid [] st).2).
Proof.
  run_M. cbn. rewrite !lookup_insert_eq. cbn.
  split; [|done].
  destruct (tokens st !! token) as [[|c u]|]; cbn.
  - split; [by right|done].
  - split; [done|]. by intros [?|?].
  - split; [by left|done].
Qed.

Lemma storage_inv_empty : storage_inv emptyStorage.
Proof.
  split; [apply NoDup_nil_2|]. intros k note H. by apply elem_of_nil in H.
Qed.

Lemma storage_inv_saveNote (note : Note) (st : Storage) :
  storage_inv st → storage_inv (storage.saveNote note st).2.
Proof.
  intros [Hwf Hid]. split; cbn.
  - by apply wf_set.
  - intros k n [[= -> ->]|Hin]%elem_set; [done|]. by apply Hid.
Qed.

Lemma storage_inv_deleteNote (noteId : jsstring) (st : Storage) :
  storage_inv st → storage_inv (storage.deleteNote noteId st).2.
Proof.
  intros [Hwf Hid]. split; cbn.
  - by apply wf_delete.
  - intros k n Hin%elem_delete. by apply Hid.
Qed.

Lemma storage_inv_tokens (st : Storage) (tk : gmap jsstring jsstring) :
  storage_inv st → storage_inv {| notes := st.(notes); tokens := tk |}.
Proof. by intros [Hwf Hid]. Qed.

Lemma storage_inv_get (st : Storage) (noteId : jsstring) (note : Note) :
  storage_inv st → JSMap.get noteId st.(notes) = Some note →
  note.(Note.id) = noteId.
Proof. intros [_ Hid] Hget. by apply Hid, get_Some_elem. Qed.

(** How [updateNote] ends: one of the four failures with the store as it
    was, or the updated note filed under its own identifier. *)
Lemma updateNote_cases now noteId userId dto st :
  (∃ r, (r = UpdateNotFound ∨ r = UpdateForbidden ∨ ∃ e, r = UpdateError e)
        ∧ notesService.updateNote now noteId userId dto st = (r, st))
  ∨ (∃ note, JSMap.get noteId st.(notes) = Some note
       ∧ note.(Note.userId) = userId
       ∧ (dto.(update_title) ≠ None ∨ dto.(update_body) ≠ None)
       ∧ (dto.(update_title) = None
          ∨ notesService.validateTitle dto.(update_title) = None)
       ∧ notesService.validateBody dto.(update_body) = None
       ∧ let updatedNote :=
           {| Note.id := note.(Note.id);
              Note.userId := note.(Note.userId);
              Note.title := match dto.(update_title) with
                            | Some title => trim title
                            | None => note.(Note.title)
                            end;
              Note.body := match dto.(update_body) with
                           | Some body => body
                           | None => note.(Note.body)
                           end;
              Note.createdAt := note.(Note.createdAt);
              Note.updatedAt := Some (toISOString now) |} in
         notesService.updateNote now noteId userId dto st
         = (UpdateNote updatedNote, (storage.saveNote updatedNote st).2)).
Proof.
  destruct dto as [title body]. run_M. cbn [update_title update_body fst snd].
  destruct (JSMap.get noteId (notes st)) as [note|] eqn:Hget;
    [|left; exists UpdateNotFound; split; [by left|done]].
  destruct (decide (Note.userId note ≠ userId)) as [Hown|Hown];
    [left; exists UpdateForbidden; split; [by right; left|done]|].
  apply dec_stable in Hown.
  destruct title as [t|], body as [b|]; cbn [is_undefined andb];
    try (left; eexists; split; [right; right; by eexists|done]).
  - destruct (notesService.validateTitle (Some t)) as [e|] eqn:Ht;
      [left; eexists; split; [right; right; by eexists|done]|].
    destruct (notesService.validateBody (Some b)) as [e|] eqn:Hb;
      [left; eexists; split; [right; right; by eexists|done]|].
    right. exists note. repeat split; try done; first [by left|by right].
  - destruct (notesService.validateTitle (Some t)) as [e|] eqn:Ht;
      [left; eexists; split; [right; right; by eexists|done]|].
    right. exists note. repeat split; try done; first [by left|by right].
  - destruct (notesService.validateBody (Some b)) as [e|] eqn:Hb;
      [left; eexists; split; [right; right; by eexists|done]|].
    right. exists note. repeat split; try done; first [by left|by right].
Qed.

Lemma deleteNote_cases noteId userId st :
  (JSMap.get noteId st.(notes) = None
   ∧ notesService.deleteNote noteId userId st = (DeleteNotFound, st))
  ∨ (∃ note, JSMap.get noteId st.(notes) = Some note
       ∧ note.(Note.userId) ≠ userId
       ∧ notesService.deleteNote noteId userId st = (DeleteForbidden, st))
  ∨ (∃ note, JSMap.get noteId st.(notes) = Some note
       ∧ note.(Note.userId) = userId
       ∧ notesService.deleteNote noteId userId st
         = (DeleteSuccess, (storage.deleteNote noteId st).2)).
Proof.
  run_M. cbn [fst snd].
  destruct (JSMap.get noteId (notes st)) as [note|] eqn:Hget; [|by left].
  right. destruct (decide (Note.userId note ≠ userId)) as [Hown|Hown].
  - left. by exists note.
  - right. apply dec_stable in Hown. by exists note.
Qed.

Lemma createNote_cases uuid now userId dto st :
  (∃ e, notesService.createNote uuid now userId dto st = (CreateError e, st))
  ∨ (∃ note, note.(Note.id) = str "note_" ++ uuid
       ∧ notesService.createNote uuid now userId dto st
         = (CreateNote note, (storage.saveNote note st).2)).
Proof.
  run_M.
  destruct (notesService.validateTitle _); [left; by eexists|].
  destruct (notesService.validateBody _); [left; by eexists|].
  right. eexists. split; [|reflexivity]. reflexivity.
Qed.

(** Every call keeps the invariant. *)
Lemma storage_inv_step (op : Op) (st : Storage) :
  storage_inv st → storage_inv (step op st).2.
Proof.
  intros Hinv. destruct op as [uuid userId|token|uuid now userId dto|userId
                              |noteId|now noteId userId dto|noteId userId];
    unfold step, bind at 1.
  - by apply storage_inv_tokens.
  - done.
  - destruct (createNote_cases uuid now userId dto st)
      as [[e ->]|(note & _ & ->)]; [done|].
    by apply storage_inv_saveNote.
  - by rewrite getUserNotes_eq.
  - done.
  - destruct (updateNote_cases now noteId userId dto st)
      as [(r & _ & ->)|(note & _ & _ & _ & _ & _ & ->)]; [done|].
    by apply storage_inv_saveNote.
  - destruct (deleteNote_cases noteId userId st)
      as [[_ ->]|[(note & _ & _ & ->)|(note & _ & _ & ->)]]; [done|done|].
    by apply storage_inv_deleteNote.
Qed.

Lemma storage_inv_run (ops : list Op) (st : Storage) :
  storage_inv st → storage_inv (run ops st).2.
Proof.
  revert st. induction ops as [|op ops IH]; intros st Hinv; [done|].
  cbn [run]. unfold bind.
  pose proof (storage_inv_step op st Hinv) as Hstep.
  destruct (step op st) as [[] st1]. by apply IH.
Qed.

(** Every store that the service can reach from its initial state. *)
Corollary storage_inv_reachable (ops : list Op) :
  storage_inv (run ops emptyStorage).2.
Proof. apply storage_inv_run, storage_inv_empty. Qed.

(** An identifier that is absent stays absent as long as no [createNote]
    draws it again. *)
Lemma absent_step (noteId : jsstring) (op : Op) (st : Storage) :
  storage_inv st → ¬ allocates noteId op →
  JSMap.get noteId st.(notes) = None →
  JSMap.get noteId (step op st).2.(notes) = None.
Proof.
  intros Hinv Hop Habs.
  destruct op as [uuid userId|token|uuid now userId dto|userId
                 |k|now k userId dto|k userId];
    unfold step, bind at 1.
  - done.
  - done.
  - destruct (createNote_cases uuid now userId dto st)
      as [[e ->]|(note & Hid & ->)]; [done|].
    cbn. rewrite get_set_ne; [done|]. by rewrite Hid.
  - by rewrite getUserNotes_eq.
  - done.
  - destruct (updateNote_cases now k userId dto st)
      as [(r & _ & ->)|(note & Hget & _ & _ & _ & _ & ->)]; [done|].
    cbn. rewrite get_set_ne; [done|].
    rewrite (storage_inv_get st k note Hinv Hget). congruence.
  - destruct (deleteNote_cases k userId st)
      as [[_ ->]|[(note & _ & _ & ->)|(note & Hget & _ & ->)]]; [done|done|].
    cbn. rewrite get_delete_ne; [done|]. congruence.
Qed.

Lemma absent_run (noteId : jsstring) (ops : list Op) (st : Storage) :
  storage_inv st → Forall (fun op => ¬ allocates noteId op) ops →
  JSMap.get noteId st.(notes) = None →
  JSMap.get noteId (run ops st).2.(notes) = None.
Proof.
  revert st. induction ops as [|op ops IH]; intros st Hinv Hops Habs; [done|].
  apply Forall_cons in Hops as [Hop Hops].
  cbn [run]. unfold bind.
  pose proof (storage_inv_step op st Hinv) as Hstep.
  pose proof (absent_step noteId op st Hinv Hop Habs) as Habs'.
  destruct (step op st) as [[] st1]. by apply IH.
Qed.

Lemma aliceStore_inv : storage_inv aliceStore.
Proof.
  exact (storage_inv_reachable
           [OpCreateNote (str "n1") 1000 (str "alice")
              {| create_title := Some (str "Shop");
                 create_body := Some (str "milk") |}]).
Qed.

(** ** Failures leave the store alone *)

(** C8: on a note of another owner, [updateNote] and [deleteNote] both
    answer forbidden; and whenever [updateNote] answers anything but an
    updated note, or [deleteNote] anything but success, the store after
    the call is the store before it. *)
Theorem failure_leaves_store_unchanged
    (now : Z) (noteId userId : jsstring) (dto : UpdateNoteDto)
    (st : Storage) :
  (∀ note, notesService.getNote noteId st = (Some note, st) →
     note.(Note.userId) ≠ userId →
     notesService.updateNote now noteId userId dto st = (UpdateForbidden, st)
     ∧ notesService.deleteNote noteId userId st = (DeleteForbidden, st))
  ∧ (∀ r st', notesService.updateNote now noteId userId dto st = (r, st') →
     (∀ note, r ≠ UpdateNote note) → st' = st)
  ∧ (∀ r st', notesService.deleteNote noteId userId st = (r, st') →
     r ≠ DeleteSuccess → st' = st).
Proof.
  split; [|split].
  - intros note Hget%getNote_Some Hown. split.
    + run_M. rewrite Hget. by rewrite decide_True.
    + run_M. rewrite Hget. by rewrite decide_True.
  - intros r st' Hup Hr.
    destruct (updateNote_cases now noteId userId dto st)
      as [(r' & _ & Heq)|(note & _ & _ & _ & _ & _ & Heq)];
      rewrite Heq in Hup.
    + by injection Hup as _ <-.
    + injection Hup as <- _. by destruct (Hr _ eq_refl).
  - intros r st' Hdel Hr.
    destruct (deleteNote_cases noteId userId st)
      as [[_ Heq]|[(note & _ & _ & Heq)|(note & _ & _ & Heq)]];
      rewrite Heq in Hdel.
    + by injection Hdel as _ <-.
    + by injection Hdel as _ <-.
    + by injection Hdel as <- _.
Qed.

(** bob on alice's note: forbidden twice, and [aliceStore] is intact. *)
Lemma failure_leaves_store_unchanged_witness :
  notesService.updateNote 2000 (str "note_n1") (str "bob")
    {| update_title := Some (str "Mine"); update_body := None |} aliceStore
  = (UpdateForbidden, aliceStore)
  ∧ notesService.deleteNote (str "note_n1") (str "bob") aliceStore
    = (DeleteForbidden, aliceStore).
Proof.
  apply (failure_leaves_store_unchanged 2000 (str "note_n1") (str "bob")
           {| update_title := Some (str "Mine"); update_body := None |}
           aliceStore) with (note := aliceNote); [reflexivity|].
  vm_compute. discriminate.
Defined.

(** ** A successful [updateNote] *)

(** What a returned note says of the call: it found a note of the user
    under [noteId], and the returned record is what the store now holds
    in the place of the previous one. *)
Lemma updateNote_success_fields
    (now : Z) (noteId userId : jsstring) (dto : UpdateNoteDto)
    (st st' : Storage) (updated : Note) :
  storage_inv st →
  notesService.updateNote now noteId userId dto st = (UpdateNote updated, st') →
  ∃ note,
    notesService.getNote noteId st = (Some note, st)
    ∧ updated.(Note.title)
      = match dto.(update_title) with
        | Some title => trim title
        | None => note.(Note.title)
        end
    ∧ updated.(Note.body)
      = match dto.(update_body) with
        | Some body => body
        | None => note.(Note.body)
        end
    ∧ updated.(Note.updatedAt) = Some (toISOString now)
    ∧ updated.(Note.id) = noteId ∧ note.(Note.id) = noteId
    ∧ updated.(Note.userId) = userId ∧ note.(Note.userId) = userId
    ∧ updated.(Note.createdAt) = note.(Note.createdAt)
    ∧ notesService.getNote noteId st' = (Some updated, st')
    ∧ (∀ k, k ≠ noteId →
         notesService.getNote k st' = (JSMap.get k st.(notes), st'))
    ∧ JSMap.keys st'.(notes) = JSMap.keys st.(notes)
    ∧ st'.(tokens) = st.(tokens).
Proof.
  intros Hinv Hup.
  destruct (updateNote_cases now noteId userId dto st)
    as [(r & Hr & Heq)|(note & Hget & Hown & _ & _ & _ & Heq)];
    rewrite Heq in Hup.
  { injection Hup as -> _. by destruct Hr as [?|[?|[? ?]]]. }
  injection Hup as <- <-.
  pose proof (storage_inv_get st noteId note Hinv Hget) as Hid.
  exists note. cbn. rewrite Hid.
  repeat split; try done.
  - by rewrite getNote_eq, Hget.
  - by rewrite getNote_eq; cbn; rewrite get_set_eq.
  - intros k Hk. rewrite getNote_eq. cbn. by rewrite get_set_ne.
  - apply keys_set_present. eapply elem_keys, get_Some_elem, Hget.
Qed.

Lemma validateBody_ok (b : jsstring) :
  (length b ≤ 500)%nat → notesService.validateBody (Some b) = None.
Proof.
  intros H. unfold notesService.validateBody.
  destruct (Nat.ltb_spec 500 (length b)); [lia|done].
Qed.

(** A valid update of a note of the user goes through. *)
Lemma updateNote_valid now noteId userId dto st note :
  JSMap.get noteId st.(notes) = Some note →
  note.(Note.userId) = userId →
  dto.(update_title) ≠ None ∨ dto.(update_body) ≠ None →
  (∀ t, dto.(update_title) = Some t → (1 ≤ length (trim t) ≤ 80)%nat) →
  (∀ b, dto.(update_body) = Some b → (length b ≤ 500)%nat) →
  let updated :=
    {| Note.id := note.(Note.id);
       Note.userId := note.(Note.userId);
       Note.title := match dto.(update_title) with
                     | Some title => trim title
                     | None => note.(Note.title)
                     end;
       Note.body := match dto.(update_body) with
                    | Some body => body
                    | None => note.(Note.body)
                    end;
       Note.createdAt := note.(Note.createdAt);
       Note.updatedAt := Some (toISOString now) |} in
  notesService.updateNote now noteId userId dto st
  = (UpdateNote updated,
     {| notes := JSMap.set note.(Note.id) updated st.(notes);
        tokens := st.(tokens) |}).
Proof.
  intros Hget Hown Hsupplied Htitle Hbody. cbv zeta.
  destruct dto as [title body]. cbn [update_title update_body] in *.
  run_M. rewrite Hget. rewrite decide_False by (by intros ?).
  cbn [update_title update_body].
  destruct title as [t|], body as [b|]; cbn [is_undefined andb].
  - rewrite (validateTitle_ok t) by (by apply Htitle).
    by rewrite (validateBody_ok b) by (by apply Hbody).
  - by rewrite (validateTitle_ok t) by (by apply Htitle).
  - by rewrite (validateBody_ok b) by (by apply Hbody).
  - by destruct Hsupplied.
Qed.

(** C7: [updateNote] succeeds exactly on a note of the user with at
    least one field supplied, a supplied title of 1 to 80 code units
    after trimming and a supplied body of at most 500.  It then returns
    the record with the trimmed supplied title or else the previous
    title, the raw supplied body or else the previous body, the update
    timestamp [now], and the identifier, owner and creation timestamp of
    the previous record; that record is what the store now holds under
    [noteId], in the place of the previous one, every other entry and
    the tokens being as before. *)
Theorem updateNote_success
    (now : Z) (noteId userId : jsstring) (dto : UpdateNoteDto)
    (st : Storage) :
  storage_inv st →
  (∀ note,
     notesService.getNote noteId st = (Some note, st) →
     note.(Note.userId) = userId →
     dto.(update_title) ≠ None ∨ dto.(update_body) ≠ None →
     (∀ t, dto.(update_title) = Some t → (1 ≤ length (trim t) ≤ 80)%nat) →
     (∀ b, dto.(update_body) = Some b → (length b ≤ 500)%nat) →
     notesService.updateNote now noteId userId dto st
     = (UpdateNote
          {| Note.id := noteId;
             Note.userId := userId;
             Note.title := match dto.(update_title) with
                           | Some title => trim title
                           | None => note.(Note.title)
                           end;
             Note.body := match dto.(update_body) with
                          | Some body => body
                          | None => note.(Note.body)
                          end;
             Note.createdAt := note.(Note.createdAt);
             Note.updatedAt := Some (toISOString now) |},
        {| notes :=
             JSMap.set noteId
               {| Note.id := noteId;
                  Note.userId := userId;
                  Note.title := match dto.(update_title) with
                                | Some title => trim title
                                | None => note.(Note.title)
                                end;
                  Note.body := match dto.(update_body) with
                               | Some body => body
                               | None => note.(Note.body)
                               end;
                  Note.createdAt := note.(Note.createdAt);
                  Note.updatedAt := Some (toISOString now) |}
               st.(notes);
           tokens := st.(tokens) |}))
  ∧ (∀ updated st',
       notesService.updateNote now noteId userId dto st
       = (UpdateNote updated, st') →
       ∃ note,
         notesService.getNote noteId st = (Some note, st)
         ∧ (dto.(update_title) ≠ None ∨ dto.(update_body) ≠ None)
         ∧ (∀ t, dto.(update_title) = Some t →
              (1 ≤ length (trim t) ≤ 80)%nat)
         ∧ (∀ b, dto.(update_body) = Some b → (length b ≤ 500)%nat)
         ∧ updated.(Note.title)
           = match dto.(update_title) with
             | Some title => trim title
             | None => note.(Note.title)
             end
         ∧ updated.(Note.body)
           = match dto.(update_body) with
             | Some body => body
             | None => note.(Note.body)
             end
         ∧ updated.(Note.updatedAt) = Some (toISOString now)
         ∧ updated.(Note.id) = noteId ∧ note.(Note.id) = noteId
         ∧ updated.(Note.userId) = userId ∧ note.(Note.userId) = userId
         ∧ updated.(Note.createdAt) = note.(Note.createdAt)
         ∧ notesService.getNote noteId st' = (Some updated, st')
         ∧ (∀ k, k ≠ noteId →
              notesService.getNote k st' = (JSMap.get k st.(notes), st'))
         ∧ JSMap.keys st'.(notes) = JSMap.keys st.(notes)
         ∧ st'.(tokens) = st.(tokens)).
Proof.
  intros Hinv. split.
  - intros note Hget%getNote_Some Hown Hsupplied Htitle Hbody.
    pose proof (storage_inv_get st noteId note Hinv Hget) as Hid.
    rewrite (updateNote_valid now noteId userId dto st note) by done.
    by rewrite Hid, Hown.
  - intros updated st' Hup.
    destruct (updateNote_success_fields now noteId userId dto st st' updated
                Hinv Hup)
      as (note & Hget & Hfields).
    exists note. split; [done|].
    destruct (updateNote_cases now noteId userId dto st)
      as [(r & Hr & Heq)|(old & _ & _ & Hsupplied & Ht & Hb & _)].
    { rewrite Heq in Hup. injection Hup as -> _.
      by destruct Hr as [?|[?|[? ?]]]. }
    split; [done|]. split; [|split; [|done]].
    + intros t Htitle. destruct Ht as [Ht|Ht]; [congruence|].
      rewrite Htitle in Ht.
      by apply validateTitle_None_inv in Ht as (t' & [= <-] & ?).
    + intros b Hbody. by apply (proj1 (validateBody_None_iff _) Hb).
Qed.

(** alice replaces the body of her note on [aliceStore]. *)
Lemma updateNote_success_witness :
  notesService.updateNote 2000 (str "note_n1") (str "alice")
    {| update_title := None; update_body := Some (str "milk,eggs") |}
    aliceStore
  = (UpdateNote
       {| Note.id := str "note_n1"; Note.userId := str "alice";
          Note.title := str "Shop"; Note.body := str "milk,eggs";
          Note.createdAt := toISOString 1000;
          Note.updatedAt := Some (toISOString 2000) |},
     {| notes :=
          JSMap.set (str "note_n1")
            {| Note.id := str "note_n1"; Note.userId := str "alice";
               Note.title := str "Shop"; Note.body := str "milk,eggs";
               Note.createdAt := toISOString 1000;
               Note.updatedAt := Some (toISOString 2000) |}
            aliceStore.(notes);
        tokens := aliceStore.(tokens) |}).
Proof.
  apply (proj1 (updateNote_success 2000 (str "note_n1") (str "alice")
                  {| update_title := None;
                     update_body := Some (str "milk,eggs") |}
                  aliceStore aliceStore_inv) aliceNote).
  - reflexivity.
  - reflexivity.
  - right. discriminate.
  - intros t. discriminate.
  - intros b [= <-]. vm_compute. lia.
Defined.

(** ** Blank title against omitted title *)

Lemma updateNote_body_only now noteId userId dto st note b :
  JSMap.get noteId st.(notes) = Some note →
  note.(Note.userId) = userId →
  dto.(update_title) = None → dto.(update_body) = Some b →
  (length b ≤ 500)%nat →
  ∃ st',
    notesService.updateNote now noteId userId dto st
    = (UpdateNote
         {| Note.id := note.(Note.id); Note.userId := note.(Note.userId);
            Note.title := note.(Note.title); Note.body := b;
            Note.createdAt := note.(Note.createdAt);
            Note.updatedAt := Some (toISOString now) |}, st').
Proof.
  intros Hget Hown Ht Hb Hlen. eexists. run_M. rewrite Hget.
  rewrite decide_False by (by intros ?). rewrite Ht, Hb. cbn.
  rewrite (validateBody_ok b Hlen). reflexivity.
Qed.

(** C5: on a note of the user, a supplied title that is empty or white
    space only is rejected with "Title is required" and the store is as
    before; with the title omitted the note's title is never touched:
    whatever the call answers, the store holds under [noteId] a note
    with the previous title, and with a body of at most 500 units the
    call succeeds and returns that title. *)
Theorem updateNote_blank_vs_omitted
    (now : Z) (noteId userId : jsstring) (dto : UpdateNoteDto)
    (st : Storage) (note : Note) :
  storage_inv st →
  notesService.getNote noteId st = (Some note, st) →
  note.(Note.userId) = userId →
  (∀ t, dto.(update_title) = Some t → forallb isWhiteSpace t = true →
     notesService.updateNote now noteId userId dto st
     = (UpdateError (str "Title is required"), st))
  ∧ (dto.(update_title) = None →
     (∃ note', notesService.getNote noteId
                 (notesService.updateNote now noteId userId dto st).2
               = (Some note',
                  (notesService.updateNote now noteId userId dto st).2)
               ∧ note'.(Note.title) = note.(Note.title))
     ∧ (∀ b, dto.(update_body) = Some b → (length b ≤ 500)%nat →
        ∃ updated st',
          notesService.updateNote now noteId userId dto st
          = (UpdateNote updated, st')
          ∧ updated.(Note.title) = note.(Note.title)
          ∧ updated.(Note.body) = b)).
Proof.
  intros Hinv Hget Hown. split.
  - intros t Ht Hws. apply getNote_Some in Hget.
    apply (updateNote_title_rejected now noteId userId dto st note t);
      try done.
    by apply validateTitle_blank.
  - intros Ht. apply getNote_Some in Hget. split.
    + pose proof (storage_inv_get st noteId note Hinv Hget) as Hid.
      destruct (updateNote_cases now noteId userId dto st)
        as [(r & _ & Heq)|(note0 & Hget0 & _ & _ & _ & _ & Heq)];
        rewrite Heq.
      * exists note. cbn [snd]. by rewrite getNote_eq, Hget.
      * assert (note0 = note) as -> by congruence.
        eexists. rewrite getNote_eq. cbn. rewrite Hid, get_set_eq.
        split; [reflexivity|]. cbn. by rewrite Ht.
    + intros b Hb Hlen.
      destruct (updateNote_body_only now noteId userId dto st note b)
        as [st' Heq]; try done.
      by eexists _, st'.
Qed.

(** On [aliceStore]: a title of three spaces is refused, and a call that
    supplies only the body keeps the title "Shop". *)
Lemma updateNote_blank_vs_omitted_witness :
  notesService.updateNote 2000 (str "note_n1") (str "alice")
    {| update_title := Some (str "   "); update_body := None |} aliceStore
  = (UpdateError (str "Title is required"), aliceStore)
  ∧ ∃ updated st',
      notesService.updateNote 2000 (str "note_n1") (str "alice")
        {| update_title := None; update_body := Some (str "milk,eggs") |}
        aliceStore
      = (UpdateNote updated, st')
      ∧ updated.(Note.title) = str "Shop"
      ∧ updated.(Note.body) = str "milk,eggs".
Proof.
  split.
  - apply (updateNote_blank_vs_omitted 2000 (str "note_n1") (str "alice")
             {| update_title := Some (str "   "); update_body := None |}
             aliceStore aliceNote aliceStore_inv eq_refl eq_refl)
      with (t := str "   "); reflexivity.
  - apply (updateNote_blank_vs_omitted 2000 (str "note_n1") (str "alice")
             {| update_title := None;
                update_body := Some (str "milk,eggs") |}
             aliceStore aliceNote aliceStore_inv eq_refl eq_refl);
      [reflexivity|reflexivity|vm_compute; lia].
Defined.

(** ** A successful [createNote] *)

(** [body || ''] is the body when there is one and the empty string when
    there is none. *)
Lemma body_or_empty (body : option jsstring) :
  (if truthy body then default [] body else []) = default [] body.
Proof. by destruct body as [[|c b]|]. Qed.

(** What a returned note says of the call and of the store after it. *)
Lemma createNote_success_fields
    (uuid : jsstring) (now : Z) (userId : jsstring) (dto : CreateNoteDto)
    (st st' : Storage) (note : Note) :
  notesService.createNote uuid now userId dto st = (CreateNote note, st') →
  ∃ t,
    dto.(create_title) = Some t
    ∧ note = {| Note.id := str "note_" ++ uuid;
                Note.userId := userId;
                Note.title := trim t;
                Note.body := default [] dto.(create_body);
                Note.createdAt := toISOString now;
                Note.updatedAt := None |}
    ∧ notesService.getNote note.(Note.id) st' = (Some note, st')
    ∧ (∀ k, k ≠ note.(Note.id) →
         notesService.getNote k st' = (JSMap.get k st.(notes), st'))
    ∧ st'.(tokens) = st.(tokens)
    ∧ (notesService.getNote note.(Note.id) st = (None, st) →
       st'.(notes) = st.(notes) ++ [(note.(Note.id), note)]).
Proof.
  run_M.
  destruct (notesService.validateTitle (create_title dto)) eqn:Ht;
    [discriminate|].
  destruct (notesService.validateBody (create_body dto)); [discriminate|].
  apply validateTitle_None_inv in Ht as (t & Ht & _).
  rewrite Ht, body_or_empty. cbn [default]. intros [= <- <-].
  exists t. cbn.
  split; [done|]. split; [done|].
  split; [by rewrite get_set_eq|].
  split; [intros k Hk; by rewrite get_set_ne|].
  split; [done|].
  intros [= Habs]. by apply set_fresh.
Qed.

(** A call with a valid title and body goes through. *)
Lemma createNote_valid uuid now userId dto st t :
  dto.(create_title) = Some t →
  (1 ≤ length (trim t) ≤ 80)%nat →
  (∀ b, dto.(create_body) = Some b → (length b ≤ 500)%nat) →
  notesService.createNote uuid now userId dto st
  = (CreateNote
       {| Note.id := str "note_" ++ uuid;
          Note.userId := userId;
          Note.title := trim t;
          Note.body := default [] dto.(create_body);
          Note.createdAt := toISOString now;
          Note.updatedAt := None |},
     {| notes :=
          JSMap.set (str "note_" ++ uuid)
            {| Note.id := str "note_" ++ uuid;
               Note.userId := userId;
               Note.title := trim t;
               Note.body := default [] dto.(create_body);
               Note.createdAt := toISOString now;
               Note.updatedAt := None |}
            st.(notes);
        tokens := st.(tokens) |}).
Proof.
  intros Htitle Hlen Hbody. run_M.
  rewrite Htitle, (validateTitle_ok t Hlen).
  rewrite (proj2 (validateBody_None_iff _) Hbody).
  by rewrite body_or_empty.
Qed.

(** C6 (as amended): [createNote] succeeds exactly when the title has 1
    to 80 code units after trimming and the body, when there is one, at
    most 500.  The returned note then has the identifier "note_"
    followed by the uuid drawn for the call, the caller as owner, the
    trimmed input title, the body as given or the empty string when
    there is none, the creation timestamp [now] and no update timestamp;
    it is what the store now holds under its identifier; every other
    entry and the tokens are as before; and provided that identifier is
    not yet in the store, the store has grown by exactly this one
    entry. *)
Theorem createNote_success
    (uuid : jsstring) (now : Z) (userId : jsstring) (dto : CreateNoteDto)
    (st : Storage) :
  (∀ t,
     dto.(create_title) = Some t →
     (1 ≤ length (trim t) ≤ 80)%nat →
     (∀ b, dto.(create_body) = Some b → (length b ≤ 500)%nat) →
     notesService.createNote uuid now userId dto st
     = (CreateNote
          {| Note.id := str "note_" ++ uuid;
             Note.userId := userId;
             Note.title := trim t;
             Note.body := default [] dto.(create_body);
             Note.createdAt := toISOString now;
             Note.updatedAt := None |},
        {| notes :=
             JSMap.set (str "note_" ++ uuid)
               {| Note.id := str "note_" ++ uuid;
                  Note.userId := userId;
                  Note.title := trim t;
                  Note.body := default [] dto.(create_body);
                  Note.createdAt := toISOString now;
                  Note.updatedAt := None |}
               st.(notes);
           tokens := st.(tokens) |}))
  ∧ (∀ note st',
       notesService.createNote uuid now userId dto st
       = (CreateNote note, st') →
       ∃ t,
         dto.(create_title) = Some t
         ∧ (1 ≤ length (trim t) ≤ 80)%nat
         ∧ (∀ b, dto.(create_body) = Some b → (length b ≤ 500)%nat)
         ∧ note = {| Note.id := str "note_" ++ uuid;
                     Note.userId := userId;
                     Note.title := trim t;
                     Note.body := default [] dto.(create_body);
                     Note.createdAt := toISOString now;
                     Note.updatedAt := None |}
         ∧ notesService.getNote note.(Note.id) st' = (Some note, st')
         ∧ (∀ k, k ≠ note.(Note.id) →
              notesService.getNote k st' = (JSMap.get k st.(notes), st'))
         ∧ st'.(tokens) = st.(tokens)
         ∧ (notesService.getNote note.(Note.id) st = (None, st) →
            st'.(notes) = st.(notes) ++ [(note.(Note.id), note)])).
Proof.
  split; [intros t; apply createNote_valid|].
  intros note st' Hc.
  destruct (createNote_success_fields uuid now userId dto st st' note Hc)
    as (t & Htitle & Hfields).
  exists t. split; [done|].
  revert Hc. run_M.
  destruct (notesService.validateTitle (create_title dto)) eqn:Ht;
    [discriminate|].
  destruct (notesService.validateBody (create_body dto)) eqn:Hb;
    [discriminate|].
  intros _. split; [|split; [|done]].
  - apply validateTitle_None_inv in Ht as (t' & Ht' & Hlen).
    rewrite Htitle in Ht'. by injection Ht' as <-.
  - by apply validateBody_None_iff.
Qed.

(** The first step of the end-to-end scenario: alice's "Shop"/"milk",
    one new entry in the empty store. *)
Lemma createNote_success_witness :
  notesService.createNote (str "n1") 1000 (str "alice")
    {| create_title := Some (str "Shop");
       create_body := Some (str "milk") |} emptyStorage
  = (CreateNote aliceNote, aliceStore)
  ∧ aliceStore.(notes)
    = emptyStorage.(notes) ++ [(str "note_n1", aliceNote)].
Proof.
  split.
  - apply (proj1 (createNote_success (str "n1") 1000 (str "alice")
                    {| create_title := Some (str "Shop");
                       create_body := Some (str "milk") |} emptyStorage)
             (str "Shop")).
    + reflexivity.
    + vm_compute. lia.
    + intros b [= <-]. vm_compute. lia.
  - destruct (proj2 (createNote_success (str "n1") 1000 (str "alice")
                       {| create_title := Some (str "Shop");
                          create_body := Some (str "milk") |} emptyStorage)
                aliceNote aliceStore eq_refl)
      as (t & _ & _ & _ & _ & _ & _ & _ & Hfresh).
    exact (Hfresh eq_refl).
Defined.

(** The note of bob that a [createNote] with the uuid "n1" builds. *)
Lemma createNote_repeated_uuid_bob :
  (notesService.createNote (str "n1") 2000 (str "bob")
     {| create_title := Some (str "Mine"); create_body := None |}
     aliceStore).1
  = CreateNote
      {| Note.id := str "note_n1"; Note.userId := str "bob";
         Note.title := str "Mine"; Note.body := [];
         Note.createdAt := toISOString 2000; Note.updatedAt := None |}.
Proof. reflexivity. Qed.

(** C6 (as stated) fails when [uuidv4()] repeats a uuid: bob's call with
    the uuid of alice's note succeeds, the store has no new entry, and
    the entry of that identifier, which was alice's note, is now bob's. *)
Lemma createNote_repeated_uuid_overwrites :
  notesService.getNote (str "note_n1") aliceStore
  = (Some aliceNote, aliceStore)
  ∧ (∃ note, (notesService.createNote (str "n1") 2000 (str "bob")
                {| create_title := Some (str "Mine"); create_body := None |}
                aliceStore).1 = CreateNote note
             ∧ note.(Note.userId) = str "bob"
             ∧ (notesService.getNote (str "note_n1")
                  (notesService.createNote (str "n1") 2000 (str "bob")
                     {| create_title := Some (str "Mine");
                        create_body := None |} aliceStore).2).1
               = Some note)
  ∧ JSMap.keys
      (notesService.createNote (str "n1") 2000 (str "bob")
         {| create_title := Some (str "Mine"); create_body := None |}
         aliceStore).2.(notes)
    = JSMap.keys aliceStore.(notes)
  ∧ ¬ (∃ entry,
         (notesService.createNote (str "n1") 2000 (str "bob")
            {| create_title := Some (str "Mine"); create_body := None |}
            aliceStore).2.(notes)
         = aliceStore.(notes) ++ [entry]).
Proof.
  split; [reflexivity|]. split.
  { eexists. split; [apply createNote_repeated_uuid_bob|].
    split; reflexivity. }
  split; [reflexivity|].
  intros [entry Heq]. apply (f_equal length) in Heq.
  vm_compute in Heq. discriminate.
Qed.

(** ** The deleted state is absorbing *)

Lemma absent_not_found (now : Z) (noteId userId : jsstring)
    (dto : UpdateNoteDto) (st : Storage) :
  JSMap.get noteId st.(notes) = None →
  notesService.getNote noteId st = (None, st)
  ∧ notesService.updateNote now noteId userId dto st = (UpdateNotFound, st)
  ∧ notesService.deleteNote noteId userId st = (DeleteNotFound, st).
Proof. intros Habs. run_M. by rewrite Habs. Qed.

(** C9: after a successful [deleteNote] the identifier is absent, and it
    stays so through every later sequence of calls in which no
    [createNote] draws that identifier again: [getNote] finds nothing and
    [updateNote] and [deleteNote], for whatever user and fields, answer
    notFound.  The same holds for an identifier that no call since the
    start of the service has allocated. *)
Theorem deleted_is_absorbing
    (noteId owner : jsstring) (st st1 : Storage) (ops : list Op)
    (now : Z) (userId : jsstring) (dto : UpdateNoteDto) :
  storage_inv st →
  Forall (fun op => ¬ allocates noteId op) ops →
  (notesService.deleteNote noteId owner st = (DeleteSuccess, st1) →
   notesService.getNote noteId st1 = (None, st1)
   ∧ notesService.getNote noteId (run ops st1).2 = (None, (run ops st1).2)
   ∧ notesService.updateNote now noteId userId dto (run ops st1).2
     = (UpdateNotFound, (run ops st1).2)
   ∧ notesService.deleteNote noteId userId (run ops st1).2
     = (DeleteNotFound, (run ops st1).2))
  ∧ (notesService.getNote noteId (run ops emptyStorage).2
     = (None, (run ops emptyStorage).2)
     ∧ notesService.updateNote now noteId userId dto (run ops emptyStorage).2
       = (UpdateNotFound, (run ops emptyStorage).2)
     ∧ notesService.deleteNote noteId userId (run ops emptyStorage).2
       = (DeleteNotFound, (run ops emptyStorage).2)).
Proof.
  intros Hinv Hops. split.
  - intros Hdel.
    destruct (deleteNote_cases noteId owner st)
      as [[_ Heq]|[(note & _ & _ & Heq)|(note & _ & _ & Heq)]];
      rewrite Heq in Hdel; try discriminate.
    injection Hdel as <-.
    pose proof (storage_inv_deleteNote noteId st Hinv) as Hinv1.
    assert (Habs : JSMap.get noteId (storage.deleteNote noteId st).2.(notes)
                   = None).
    { cbn. apply get_delete_eq, Hinv. }
    split; [by apply (absent_not_found now noteId userId dto)|].
    apply absent_not_found. by apply absent_run.
  - apply absent_not_found.
    apply absent_run; [apply storage_inv_empty|done|done].
Qed.

(** The end of the end-to-end scenario: alice deletes her note; bob then
    logs in, creates a note of his own and tries to touch hers. *)
Lemma deleted_is_absorbing_witness :
  notesService.getNote (str "note_n1")
    (notesService.deleteNote (str "note_n1") (str "alice") aliceStore).2
  = (None, (notesService.deleteNote (str "note_n1") (str "alice") aliceStore).2)
  ∧ (notesService.updateNote 3000 (str "note_n1") (str "alice")
       {| update_title := Some (str "Again"); update_body := None |}
       (run [OpGenerateToken (str "t2") (str "bob");
             OpCreateNote (str "n2") 2000 (str "bob")
               {| create_title := Some (str "Mine"); create_body := None |};
             OpDeleteNote (str "note_n1") (str "bob")]
          (notesService.deleteNote (str "note_n1") (str "alice")
             aliceStore).2).2).1
    = UpdateNotFound.
Proof.
  destruct (deleted_is_absorbing (str "note_n1") (str "alice") aliceStore
              (notesService.deleteNote (str "note_n1") (str "alice")
                 aliceStore).2
              [OpGenerateToken (str "t2") (str "bob");
               OpCreateNote (str "n2") 2000 (str "bob")
                 {| create_title := Some (str "Mine");
                    create_body := None |};
               OpDeleteNote (str "note_n1") (str "bob")]
              3000 (str "alice")
              {| update_title := Some (str "Again"); update_body := None |}
              aliceStore_inv) as [Hdel _].
  - repeat constructor; try (by intros []). vm_compute. discriminate.
  - destruct (Hdel eq_refl) as (Hget & _ & Hup & _).
    split; [exact Hget|]. by rewrite Hup.
Defined.

(** ** More on [trim] *)

Lemma trimStart_split (s : jsstring) :
  ∃ p, s = p ++ trimStart s ∧ forallb isWhiteSpace p = true.
Proof.
  induction s as [|c s (p & Hs & Hp)]; [by exists []|]. simpl.
  destruct (isWhiteSpace c) eqn:Hc.
  - exists (c :: p). simpl. rewrite Hc, Hp. split; [by f_equal|done].
  - by exists [].
Qed.

Lemma trimStart_fixed (s : jsstring) :
  (∀ c rest, s = c :: rest → isWhiteSpace c = false) → trimStart s = s.
Proof.
  destruct s as [|c s]; [done|]. intros H. simpl.
  by rewrite (H c s eq_refl).
Qed.

Lemma trimStart_idem (s : jsstring) : trimStart (trimStart s) = trimStart s.
Proof. apply trimStart_fixed. intros c rest. apply trimStart_head. Qed.

(** Trimming a trimmed string changes nothing. *)
Lemma trim_idem (s : jsstring) : trim (trim s) = trim s.
Proof.
  unfold trim, trimEnd.
  destruct (trimStart_split (rev (trimStart s))) as (p & Hrev & _).
  set (u := trimStart (rev (trimStart s))) in *.
  assert (Hfix : trimStart (rev u) = rev u).
  { apply trimStart_fixed. intros c rest Hu.
    apply (f_equal (@rev N)) in Hrev. rewrite rev_involutive, rev_app_distr in Hrev.
    rewrite Hu in Hrev. simpl in Hrev. by apply trimStart_head in Hrev. }
  rewrite Hfix, rev_involutive. unfold u. by rewrite trimStart_idem.
Qed.

(** ** The bounds of the data model are kept *)







(** ** What a call may do to a note *)

(** The store after a call is the store that the service leaves. *)
Lemma step_state (op : Op) (st : Storage) :
  (step op st).2
  = match op with
    | OpGenerateToken uuid userId =>
        (authService.generateToken uuid userId st).2
    | OpValidateToken token => (authService.validateToken token st).2
    | OpCreateNote uuid now userId dto =>
        (notesService.createNote uuid now userId dto st).2
    | OpGetUserNotes userId => (notesService.getUserNotes userId st).2
    | OpGetNote noteId => (notesService.getNote noteId st).2
    | OpUpdateNote now noteId userId dto =>
        (notesService.updateNote now noteId userId dto st).2
    | OpDeleteNote noteId userId =>
        (notesService.deleteNote noteId userId st).2
    end.
Proof.
  destruct op; unfold step, bind at 1;
    match goal with |- context [let '(_, _) := ?c in _] => by destruct c end.
Qed.

(** One call either leaves a stored note as it is, or is an [updateNote]
    on it in its owner's name, which keeps identifier, owner and creation
    timestamp, or is a [deleteNote] on it in its owner's name. *)
Lemma step_note_fate (noteId : jsstring) (note : Note) (op : Op)
    (st : Storage) :
  storage_inv st →
  JSMap.get noteId st.(notes) = Some note →
  ¬ allocates noteId op →
  JSMap.get noteId (step op st).2.(notes) = Some note
  ∨ (op_user op = Some note.(Note.userId)
     ∧ ∃ note', JSMap.get noteId (step op st).2.(notes) = Some note'
         ∧ note'.(Note.id) = note.(Note.id)
         ∧ note'.(Note.userId) = note.(Note.userId)
         ∧ note'.(Note.createdAt) = note.(Note.createdAt))
  ∨ (op_user op = Some note.(Note.userId)
     ∧ JSMap.get noteId (step op st).2.(notes) = None).
Proof.
  intros Hinv Hget Hop. rewrite step_state.
  destruct op as [uuid userId|token|uuid now userId dto|userId
                 |k|now k userId dto|k userId].
  - by left.
  - by left.
  - left. destruct (createNote_cases uuid now userId dto st)
      as [[e ->]|(new & Hid & ->)]; [done|].
    cbn. rewrite get_set_ne; [done|]. by rewrite Hid.
  - left. by rewrite getUserNotes_eq.
  - by left.
  - destruct (updateNote_cases now k userId dto st)
      as [(r & _ & ->)|(old & Hold & Hown & _ & _ & _ & ->)]; [by left|].
    pose proof (storage_inv_get st k old Hinv Hold) as Hid.
    destruct (decide (k = noteId)) as [->|Hne].
    + assert (old = note) as -> by congruence.
      right; left. split; [by rewrite <- Hown|].
      eexists. cbn. rewrite Hid, get_set_eq. by split.
    + left. cbn. rewrite get_set_ne; [done|]. by rewrite Hid.
  - destruct (deleteNote_cases k userId st)
      as [[_ ->]|[(old & _ & _ & ->)|(old & Hold & Hown & ->)]];
      [by left|by left|].
    destruct (decide (k = noteId)) as [->|Hne].
    + assert (old = note) as -> by congruence.
      right; right. split; [by rewrite <- Hown|].
      cbn. apply get_delete_eq, Hinv.
    + left. cbn. by rewrite get_delete_ne.
Qed.

(** X2: the identifier, the owner and the creation timestamp of a note
    never change: whatever calls are made on the services, as long as no
    [createNote] draws the note's identifier again, a note found under
    that identifier afterwards has the same three fields. *)
Theorem owner_and_createdAt_never_change
    (noteId : jsstring) (note note' : Note) (ops : list Op) (st : Storage) :
  storage_inv st →
  (notesService.getNote noteId st).1 = Some note →
  Forall (fun op => ¬ allocates noteId op) ops →
  (notesService.getNote noteId (run ops st).2).1 = Some note' →
  note'.(Note.id) = note.(Note.id)
  ∧ note'.(Note.userId) = note.(Note.userId)
  ∧ note'.(Note.createdAt) = note.(Note.createdAt).
Proof.
  rewrite !getNote_eq. cbn [fst].
  revert st note. induction ops as [|op ops IH]; intros st note Hinv Hget Hops Hget'.
  - cbn in Hget'. by assert (note' = note) as -> by congruence.
  - apply Forall_cons in Hops as [Hop Hops].
    pose proof (storage_inv_step op st Hinv) as Hinv1.
    pose proof (step_note_fate noteId note op st Hinv Hget Hop) as Hfate.
    pose proof (absent_run noteId ops (step op st).2 Hinv1 Hops) as Habs.
    cbn [run] in Hget'. unfold bind in Hget'.
    destruct (step op st) as [[] st1]. cbn [snd] in *.
    destruct Hfate as [Hsame|[(_ & n1 & Hn1 & Hid & Hown & Hat)|[_ Hnone]]].
    + by apply (IH st1 note).
    + destruct (IH st1 n1 Hinv1 Hn1 Hops Hget') as (? & ? & ?).
      repeat split; congruence.
    + rewrite (Habs Hnone) in Hget'. discriminate.
Qed.

(** X3: a note is changed or removed only by calls made in its owner's
    name: through any sequence of calls in which no call is made as the
    owner and no [createNote] draws the note's identifier, the store
    keeps the note exactly as it was. *)
Theorem other_users_cannot_touch_note
    (noteId : jsstring) (note : Note) (ops : list Op) (st : Storage) :
  storage_inv st →
  (notesService.getNote noteId st).1 = Some note →
  Forall (fun op => ¬ allocates noteId op
                    ∧ op_user op ≠ Some note.(Note.userId)) ops →
  notesService.getNote noteId (run ops st).2
  = (Some note, (run ops st).2).
Proof.
  rewrite !getNote_eq. cbn [fst].
  revert st. induction ops as [|op ops IH]; intros st Hinv Hget Hops.
  - cbn. by rewrite Hget.
  - apply Forall_cons in Hops as [[Hop Huser] Hops].
    pose proof (storage_inv_step op st Hinv) as Hinv1.
    pose proof (step_note_fate noteId note op st Hinv Hget Hop) as Hfate.
    cbn [run]. unfold bind.
    destruct (step op st) as [[] st1]. cbn [snd] in *.
    destruct Hfate as [Hsame|[[? _]|[? _]]]; [|done|done].
    by apply IH.
Qed.

(** ** [sort] against [filter] and [map] *)

Lemma sort_insert_head {A} (cmp : A → A → Z) (x : A) (l : list A) :
  (∀ y rest, l = y :: rest → cmp x y ≤ 0) → sort_insert cmp x l = x :: l.
Proof.
  destruct l as [|y l]; [done|]. intros H. simpl.
  destruct (Z.leb_spec (cmp x y) 0); [done|].
  specialize (H y l eq_refl). lia.
Qed.

Lemma filter_sort_insert (P : Note → Prop) `{∀ n, Decision (P n)}
    (x : Note) (l : list Note) :
  StronglySorted newestFirst l →
  filter P (sort_insert storage.byCreatedAtDesc x l)
  = if decide (P x) then sort_insert storage.byCreatedAtDesc x (filter P l)
    else filter P l.
Proof.
  induction 1 as [|y l Hl IH Hy]; simpl.
  - rewrite filter_cons, filter_nil. by destruct (decide (P x)).
  - destruct (Z.leb_spec (storage.byCreatedAtDesc x y) 0) as [Hle|Hgt].
    + rewrite filter_cons. destruct (decide (P x)); [|done].
      rewrite sort_insert_head; [done|].
      intros z rest Hz.
      assert (Hin : z ∈ filter P (y :: l)) by (rewrite Hz; left).
      apply list_elem_of_filter in Hin as [_ Hin].
      apply elem_of_cons in Hin as [->|Hin]; [done|].
      rewrite Forall_forall in Hy. specialize (Hy z Hin).
      unfold newestFirst, storage.byCreatedAtDesc in *. lia.
    + rewrite !filter_cons, IH.
      destruct (decide (P y)), (decide (P x)); simpl; try done.
      destruct (Z.leb_spec (storage.byCreatedAtDesc x y) 0); [lia|done].
Qed.

(** Sorting and then filtering is filtering and then sorting. *)
Lemma filter_array_sort (P : Note → Prop) `{∀ n, Decision (P n)}
    (l : list Note) :
  filter P (array_sort storage.byCreatedAtDesc l)
  = array_sort storage.byCreatedAtDesc (filter P l).
Proof.
  induction l as [|x l IH]; [done|]. simpl.
  rewrite filter_sort_insert by apply array_sort_newestFirst.
  rewrite filter_cons. destruct (decide (P x)); simpl; by rewrite IH.
Qed.

(** Notes of one timestamp are not moved by the sort. *)
Lemma array_sort_same_instant (t : Z) (l : list Note) :
  Forall (fun n => getTime n.(Note.createdAt) = t) l →
  array_sort storage.byCreatedAtDesc l = l.
Proof.
  induction 1 as [|x l Hx Hl IH]; [done|]. simpl. rewrite IH.
  apply sort_insert_head. intros y rest ->.
  apply Forall_cons in Hl as [Hy _].
  unfold storage.byCreatedAtDesc. lia.
Qed.

Lemma sort_insert_map (f : Note → Note) (x : Note) (l : list Note) :
  Forall (fun n => (f n).(Note.createdAt) = n.(Note.createdAt)) (x :: l) →
  sort_insert storage.byCreatedAtDesc (f x) (map f l)
  = map f (sort_insert storage.byCreatedAtDesc x l).
Proof.
  intros [Hx Hl]%Forall_cons.
  induction Hl as [|y l Hy Hl IH]; [done|]. simpl.
  unfold storage.byCreatedAtDesc at 1 3. rewrite Hx, Hy.
  destruct (_ <=? 0); [done|]. simpl. by rewrite IH.
Qed.

(** A change of the notes that keeps their creation timestamps does not
    reorder the sorted list. *)
Lemma array_sort_map (f : Note → Note) (l : list Note) :
  Forall (fun n => (f n).(Note.createdAt) = n.(Note.createdAt)) l →
  array_sort storage.byCreatedAtDesc (map f l)
  = map f (array_sort storage.byCreatedAtDesc l).
Proof.
  induction 1 as [|x l Hx Hl IH]; [done|]. simpl. rewrite IH.
  apply sort_insert_map. constructor; [done|].
  by rewrite array_sort_Permutation.
Qed.

(** ** The values of the note store after [delete] and [set] *)

Lemma values_cons {K V} (k : K) (v : V) (m : JSMap.t K V) :
  JSMap.values ((k, v) :: m) = v :: JSMap.values m.
Proof. reflexivity. Qed.

Lemma keys_cons {K V} (k : K) (v : V) (m : JSMap.t K V) :
  JSMap.keys ((k, v) :: m) = k :: JSMap.keys m.
Proof. reflexivity. Qed.

Section NoteStoreValues.
Context (m : JSMap.t jsstring Note).
Implicit Types (noteId : jsstring) (note : Note).

Lemma filter_id_absent noteId :
  (∀ k note, (k, note) ∈ m → note.(Note.id) = k) →
  noteId ∉ JSMap.keys m →
  filter (fun note => note.(Note.id) ≠ noteId) (JSMap.values m)
  = JSMap.values m.
Proof.
  induction m as [|[k0 n0] m' IH]; intros Hid Hk; [done|].
  unfold JSMap.keys, JSMap.values in *. cbn [map fst snd] in *.
  apply not_elem_of_cons in Hk as [Hk0 Hk].
  rewrite filter_cons.
  pose proof (Hid k0 n0 (list_elem_of_here _ _)) as Hn0.
  rewrite decide_True by congruence.
  rewrite IH; [done| |done]. intros k n Hin. apply Hid. by right.
Qed.

Lemma map_replace_absent noteId (updated : Note) :
  (∀ k note, (k, note) ∈ m → note.(Note.id) = k) →
  noteId ∉ JSMap.keys m →
  map (replaceNote noteId updated) (JSMap.values m) = JSMap.values m.
Proof.
  induction m as [|[k0 n0] m' IH]; intros Hid Hk; [done|].
  unfold JSMap.keys, JSMap.values in *. cbn [map fst snd] in *.
  apply not_elem_of_cons in Hk as [Hk0 Hk].
  pose proof (Hid k0 n0 (list_elem_of_here _ _)) as Hn0.
  unfold replaceNote at 1. rewrite decide_False by congruence.
  rewrite IH; [done| |done]. intros k n Hin. apply Hid. by right.
Qed.
End NoteStoreValues.

Lemma values_delete (m : JSMap.t jsstring Note) (noteId : jsstring) :
  JSMap.wf m →
  (∀ k note, (k, note) ∈ m → note.(Note.id) = k) →
  JSMap.values (JSMap.delete noteId m)
  = filter (fun note => note.(Note.id) ≠ noteId) (JSMap.values m).
Proof.
  unfold JSMap.wf. induction m as [|[k0 n0] m IH]; intros Hwf Hid; [done|].
  rewrite keys_cons in Hwf. apply NoDup_cons in Hwf as [Hk0 Hwf].
  pose proof (Hid k0 n0 (list_elem_of_here _ _)) as Hn0.
  assert (Hid' : ∀ k note, (k, note) ∈ m → Note.id note = k).
  { intros k n Hin. apply Hid. by right. }
  cbn [JSMap.delete]. rewrite values_cons, filter_cons.
  destruct (decide (k0 = noteId)) as [->|Hne].
  - rewrite decide_False by (intros Hc; by apply Hc).
    by rewrite (filter_id_absent m noteId).
  - rewrite decide_True by congruence. rewrite values_cons. by rewrite IH.
Qed.

Lemma values_set_present (m : JSMap.t jsstring Note) (noteId : jsstring)
    (updated : Note) :
  JSMap.wf m →
  (∀ k note, (k, note) ∈ m → note.(Note.id) = k) →
  noteId ∈ JSMap.keys m →
  JSMap.values (JSMap.set noteId updated m)
  = map (replaceNote noteId updated) (JSMap.values m).
Proof.
  unfold JSMap.wf.
  induction m as [|[k0 n0] m IH]; intros Hwf Hid Hin.
  { by apply elem_of_nil in Hin. }
  rewrite keys_cons in Hwf. apply NoDup_cons in Hwf as [Hk0 Hwf].
  pose proof (Hid k0 n0 (list_elem_of_here _ _)) as Hn0.
  assert (Hid' : ∀ k note, (k, note) ∈ m → Note.id note = k).
  { intros k n Hin'. apply Hid. by right. }
  cbn [JSMap.set]. rewrite keys_cons in Hin. rewrite values_cons.
  cbn [map]. unfold replaceNote at 1.
  destruct (decide (k0 = noteId)) as [->|Hne].
  - rewrite decide_True by done. rewrite values_cons.
    by rewrite (map_replace_absent m noteId).
  - rewrite decide_False by congruence. rewrite values_cons, IH; try done.
    apply elem_of_cons in Hin as [?|?]; [congruence|done].
Qed.

(** ** Listing after [deleteNote] and [updateNote] *)

Lemma elem_get_wf {K V} `{EqDecision K} (k : K) (v : V) (m : JSMap.t K V) :
  JSMap.wf m → (k, v) ∈ m → JSMap.get k m = Some v.
Proof.
  unfold JSMap.wf. induction m as [|[k0 v0] m IH]; intros Hwf Hin.
  { by apply elem_of_nil in Hin. }
  rewrite keys_cons in Hwf. apply NoDup_cons in Hwf as [Hk0 Hwf].
  cbn [JSMap.get]. apply elem_of_cons in Hin as [[= -> ->]|Hin].
  - by rewrite decide_True.
  - rewrite decide_False; [by apply IH|].
    intros ->. by apply elem_keys in Hin.
Qed.

Lemma filter_filter_comm {A} (P Q : A → Prop)
    `{∀ x, Decision (P x)} `{∀ x, Decision (Q x)} (l : list A) :
  filter P (filter Q l) = filter Q (filter P l).
Proof.
  induction l as [|x l IH]; [done|].
  rewrite !filter_cons.
  destruct (decide (Q x)), (decide (P x)); rewrite ?filter_cons;
    repeat case_decide; try done; by rewrite IH.
Qed.

Lemma filter_map_replace (userId noteId : jsstring) (updated : Note)
    (l : list Note) :
  Forall (fun n => (replaceNote noteId updated n).(Note.userId)
                   = n.(Note.userId)) l →
  filter (fun n => n.(Note.userId) = userId)
    (map (replaceNote noteId updated) l)
  = map (replaceNote noteId updated)
      (filter (fun n => n.(Note.userId) = userId) l).
Proof.
  induction 1 as [|x l Hx Hl IH]; [done|].
  cbn [map]. rewrite !filter_cons, Hx.
  destruct (decide (Note.userId x = userId)); cbn [map]; by rewrite IH.
Qed.

(** X4: a successful [deleteNote] removes the one entry and nothing
    else: every other identifier looks up as before, the tokens are as
    before, and the list of every user is the previous list without the
    deleted note, in the same order. *)
Theorem deleteNote_success_frame
    (noteId userId : jsstring) (st st' : Storage) :
  storage_inv st →
  notesService.deleteNote noteId userId st = (DeleteSuccess, st') →
  (∃ note, notesService.getNote noteId st = (Some note, st)
           ∧ note.(Note.userId) = userId)
  ∧ (∀ k, k ≠ noteId →
       notesService.getNote k st' = (JSMap.get k st.(notes), st'))
  ∧ st'.(tokens) = st.(tokens)
  ∧ (∀ u, (notesService.getUserNotes u st').1
          = filter (fun note => note.(Note.id) ≠ noteId)
              (notesService.getUserNotes u st).1).
Proof.
  intros [Hwf Hid] Hdel.
  destruct (deleteNote_cases noteId userId st)
    as [[_ Heq]|[(note & _ & _ & Heq)|(note & Hget & Hown & Heq)]];
    rewrite Heq in Hdel; try discriminate.
  injection Hdel as <-. cbn [storage.deleteNote snd notes tokens].
  split; [exists note; by rewrite getNote_eq, Hget|].
  split; [intros k Hk; rewrite getNote_eq; cbn; by rewrite get_delete_ne|].
  split; [done|].
  intros u. rewrite !getUserNotes_eq. cbn [fst notes].
  rewrite values_delete by done.
  by rewrite filter_filter_comm, filter_array_sort.
Qed.

(** X5: a successful [updateNote] does not move the note in any list:
    the list of every user is the previous list with the updated record
    in the place of the previous one. *)
Theorem updateNote_keeps_list_position
    (now : Z) (noteId userId : jsstring) (dto : UpdateNoteDto)
    (st st' : Storage) (updated : Note) :
  storage_inv st →
  notesService.updateNote now noteId userId dto st = (UpdateNote updated, st') →
  ∀ u, (notesService.getUserNotes u st').1
       = map (replaceNote noteId updated) (notesService.getUserNotes u st).1.
Proof.
  intros Hinv Hup u.
  destruct (updateNote_cases now noteId userId dto st)
    as [(r & Hr & Heq)|(old & Hget & Hown & _ & _ & _ & Heq)];
    rewrite Heq in Hup.
  { injection Hup as -> _. by destruct Hr as [?|[?|[? ?]]]. }
  injection Hup as <- <-.
  pose proof (storage_inv_get st noteId old Hinv Hget) as Hold.
  destruct Hinv as [Hwf Hid].
  assert (Hsame : ∀ n, n ∈ JSMap.values st.(notes) →
            n.(Note.id) = noteId → n = old).
  { intros n Hn Hnid.
    apply list_elem_of_fmap in Hn as ([k n'] & -> & Hin). cbn in *.
    rewrite (Hid k n' Hin) in Hnid. subst k.
    apply (elem_get_wf _ _ _ Hwf) in Hin. congruence. }
  rewrite !getUserNotes_eq. cbn [fst snd storage.saveNote notes Note.id].
  rewrite Hold, values_set_present;
    [|done|done|by eapply elem_keys, get_Some_elem].
  rewrite filter_map_replace.
  - apply array_sort_map. apply Forall_forall. intros n Hn.
    apply list_elem_of_filter in Hn as [_ Hn]. unfold replaceNote.
    destruct (decide _) as [Hnid|]; [|done].
    by rewrite (Hsame n Hn Hnid).
  - apply Forall_forall. intros n Hn. unfold replaceNote.
    destruct (decide _) as [Hnid|]; [|done].
    by rewrite (Hsame n Hn Hnid).
Qed.

(** X6: among the notes of a user that carry the same creation
    timestamp, the list keeps the order in which the store holds them,
    which is the order of their creation. *)
Theorem getUserNotes_ties_in_insertion_order
    (userId : jsstring) (st : Storage) (t : Z) :
  filter (fun note => getTime note.(Note.createdAt) = t)
    (notesService.getUserNotes userId st).1
  = filter (fun note => getTime note.(Note.createdAt) = t)
      (filter (fun note => note.(Note.userId) = userId)
         (JSMap.values st.(notes))).
Proof.
  rewrite getUserNotes_eq. cbn [fst]. rewrite filter_array_sort.
  apply (array_sort_same_instant t). apply Forall_forall.
  by intros n [? _]%list_elem_of_filter.
Qed.

(** ** Tokens through the calls *)

(** Only [generateToken] writes the token store, and it writes one
    binding. *)
Lemma step_tokens (op : Op) (st : Storage) :
  (step op st).2.(tokens)
  = match op with
    | OpGenerateToken uuid userId =>
        <[str "fake_" ++ uuid := userId]> st.(tokens)
    | _ => st.(tokens)
    end.
Proof.
  rewrite step_state.
  destruct op as [uuid userId|token|uuid now userId dto|userId
                 |noteId|now noteId userId dto|noteId userId]; try done.
  - by destruct (createNote_cases uuid now userId dto st)
      as [[e ->]|(note & _ & ->)].
  - by destruct (updateNote_cases now noteId userId dto st)
      as [(r & _ & ->)|(old & _ & _ & _ & _ & _ & ->)].
  - by destruct (deleteNote_cases noteId userId st)
      as [[_ ->]|[(note & _ & _ & ->)|(note & _ & _ & ->)]].
Qed.

Lemma step_notes_generateToken (uuid userId : jsstring) (st : Storage) :
  (step (OpGenerateToken uuid userId) st).2.(notes) = st.(notes).
Proof. by rewrite step_state. Qed.

Lemma validateToken_Some (token userId : jsstring) (st : Storage) :
  (authService.validateToken token st).1 = Some userId
  ↔ st.(tokens) !! token = Some userId ∧ userId ≠ [].
Proof.
  run_M. cbn [fst].
  destruct (tokens st !! token) as [[|c u]|]; cbn.
  - split; [done|]. by intros [[= <-] ?].
  - split; [by intros [= <-]|]. by intros [[= <-] _].
  - split; [done|]. by intros [? _].
Qed.

Lemma validateToken_None (token : jsstring) (st : Storage) :
  (authService.validateToken token st).1 = None
  ↔ st.(tokens) !! token = None ∨ st.(tokens) !! token = Some [].
Proof.
  run_M. cbn [fst].
  destruct (tokens st !! token) as [[|c u]|]; cbn.
  - split; [by right|done].
  - split; [done|]. by intros [?|?].
  - split; [by left|done].
Qed.

(** X7: tokens never expire and are never revoked: once a token resolves
    to a user, it resolves to that user after every sequence of calls on
    the services in which [generateToken] does not issue the same token
    again. *)
Theorem tokens_are_permanent
    (token userId : jsstring) (ops : list Op) (st : Storage) :
  (authService.validateToken token st).1 = Some userId →
  Forall (fun op => ¬ issues token op) ops →
  authService.validateToken token (run ops st).2
  = (Some userId, (run ops st).2).
Proof.
  intros Hval Hops.
  assert (Hgoal : (authService.validateToken token (run ops st).2).1
                  = Some userId).
  { revert st Hval. induction Hops as [|op ops Hop Hops IH]; intros st Hval.
    - done.
    - cbn [run]. unfold bind.
      assert (Hstep : (authService.validateToken token (step op st).2).1
                      = Some userId).
      { apply validateToken_Some in Hval as [Htok Hne].
        apply validateToken_Some. split; [|done].
        rewrite step_tokens. destruct op; try done.
        rewrite lookup_insert_ne; [done|]. exact Hop. }
      destruct (step op st) as [[] st1]. by apply IH. }
  revert Hgoal. run_M. cbn [fst]. by intros ->.
Qed.

(** X8: a token resolves only if it was issued: in a store reached from
    the empty one, a token that resolves to a user is "fake_" followed
    by a uuid that some [generateToken] call drew for that very user. *)
Theorem only_issued_tokens_resolve
    (token userId : jsstring) (ops : list Op) :
  (authService.validateToken token (run ops emptyStorage).2).1 = Some userId →
  ∃ uuid, token = str "fake_" ++ uuid ∧ OpGenerateToken uuid userId ∈ ops.
Proof.
  intros [Hval _]%validateToken_Some. revert Hval.
  assert (Hgen : ∀ st,
            (run ops st).2.(tokens) !! token = Some userId →
            st.(tokens) !! token = Some userId
            ∨ ∃ uuid, token = str "fake_" ++ uuid
                      ∧ OpGenerateToken uuid userId ∈ ops).
  { induction ops as [|op ops IH]; intros st Hrun; [by left|].
    cbn [run] in Hrun. unfold bind in Hrun.
    pose proof (step_tokens op st) as Htok.
    destruct (step op st) as [[] st1]. cbn [snd] in *.
    destruct (IH st1 Hrun) as [Hst1|(uuid & -> & Hin)].
    - rewrite Htok in Hst1.
      destruct op as [uuid u| | | | | |]; try (by left).
      destruct (decide (str "fake_" ++ uuid = token)) as [<-|Hne].
      + rewrite lookup_insert_eq in Hst1. injection Hst1 as ->.
        right. exists uuid. split; [done|left].
      + rewrite lookup_insert_ne in Hst1 by done. by left.
    - right. exists uuid. split; [done|by right]. }
  intros Hval. destruct (Hgen emptyStorage Hval) as [Hempty|?]; [|done].
  cbn in Hempty. by rewrite lookup_empty in Hempty.
Qed.

(** ** [split] *)

Lemma split_not_nil (sep : N) (s : jsstring) : split sep s ≠ [].
Proof.
  destruct s as [|c s]; [done|]. simpl.
  destruct (c =? sep)%N; [done|]. by destruct (split sep s).
Qed.

(** Joining the parts with the separator gives the string back. *)
Lemma join_split (sep : N) (s : jsstring) : join sep (split sep s) = s.
Proof.
  induction s as [|c s IH]; [done|]. simpl.
  destruct (N.eqb_spec c sep) as [->|Hne].
  - pose proof (split_not_nil sep s) as Hnil.
    destruct (split sep s) as [|p ps]; [done|]. cbn [join].
    cbn [join] in IH. by rewrite IH.
  - pose proof (split_not_nil sep s) as Hnil.
    destruct (split sep s) as [|p ps]; [done|].
    destruct ps as [|p' ps]; cbn [join] in *; by rewrite <- IH.
Qed.

(** No part contains the separator. *)
Lemma split_parts (sep : N) (s : jsstring) :
  Forall (fun part => sep ∉ part) (split sep s).
Proof.
  induction s as [|c s IH]; simpl.
  - constructor; [apply not_elem_of_nil|constructor].
  - destruct (N.eqb_spec c sep) as [->|Hne].
    + constructor; [apply not_elem_of_nil|done].
    + destruct (split sep s) as [|p ps].
      * constructor; [|constructor].
        intros [?|Hin%elem_of_nil]%elem_of_cons; done.
      * apply Forall_cons in IH as [Hp Hps]. constructor; [|done].
        intros [?|?]%elem_of_cons; done.
Qed.

Lemma split_no_sep (sep : N) (s : jsstring) :
  sep ∉ s → split sep s = [s].
Proof.
  induction s as [|c s IH]; [done|].
  intros [Hc Hs]%not_elem_of_cons. simpl.
  destruct (N.eqb_spec c sep) as [->|_]; [done|]. by rewrite IH.
Qed.

Lemma split_app_sep (sep : N) (a b : jsstring) :
  sep ∉ a → split sep (a ++ sep :: b) = a :: split sep b.
Proof.
  induction a as [|c a IH]; simpl.
  - intros _. by rewrite N.eqb_refl.
  - intros [Hc Ha]%not_elem_of_cons.
    destruct (N.eqb_spec c sep) as [->|_]; [done|]. by rewrite IH.
Qed.

Lemma Bearer_space : str "Bearer " = str "Bearer" ++ [SPACE].
Proof. reflexivity. Qed.

(** The header splits into "Bearer" and one more part exactly when it is
    "Bearer ", followed by a token without a space. *)
Lemma split_bearer (header token : jsstring) :
  split SPACE header = [str "Bearer"; token]
  ↔ header = str "Bearer " ++ token ∧ SPACE ∉ token.
Proof.
  split.
  - intros Hsplit. split.
    + rewrite <- (join_split SPACE header), Hsplit, Bearer_space.
      cbn [join]. by rewrite <- app_assoc.
    + pose proof (split_parts SPACE header) as Hparts.
      rewrite Hsplit in Hparts.
      by apply Forall_cons in Hparts as [_ [? _]%Forall_cons].
  - intros [-> Htoken]. rewrite Bearer_space, <- app_assoc. cbn [app].
    rewrite split_app_sep; [by rewrite split_no_sep|].
    vm_compute. intros Hin.
    repeat (apply elem_of_cons in Hin as [Hin|Hin]; [discriminate|idtac]).
    by apply elem_of_nil in Hin.
Qed.

(** ** [authMiddleware] *)

Lemma authMiddleware_spec
    (authHeader : option jsstring) (st : Storage) :
  (authMiddleware authHeader st).2 = st
  ∧ (∀ userId,
       (authMiddleware authHeader st).1 = Next userId
       ↔ ∃ token, authHeader = Some (str "Bearer " ++ token)
                  ∧ (SPACE ∉ token)
                  ∧ st.(tokens) !! token = Some userId
                  ∧ userId ≠ [])
  ∧ (∀ res, (authMiddleware authHeader st).1 = Responded res →
       res.(Response.status) = 401).
Proof.
  assert (Hreject : ∀ (msg : jsstring) (P : jsstring → Prop),
            (∀ userId, ¬ P userId) →
            (Responded (Response.mk 401 (JsonError msg)), st).2 = st
            ∧ (∀ userId,
                 (Responded (Response.mk 401 (JsonError msg)), st).1
                 = Next userId ↔ P userId)
            ∧ (∀ res,
                 (Responded (Response.mk 401 (JsonError msg)), st).1
                 = Responded res → res.(Response.status) = 401)).
  { intros msg P HP. split; [done|]. split.
    - intros u. split; [done|]. intros HP'. by destruct (HP u).
    - by intros res [= <-]. }
  unfold authMiddleware. run_M.
  destruct authHeader as [[|c s]|]; cbn [truthy negb default from_option id].
  - apply Hreject. by intros u (tok & [= Hh] & _).
  - destruct (split SPACE (c :: s)) as [|p0 [|p1 [|p2 rest]]] eqn:Hsplit;
      cbn [length Nat.eqb negb orb].
    1, 2, 4: apply Hreject; intros u (tok & Hh%(inj Some) & Htok & _);
      apply (conj Hh) in Htok; apply split_bearer in Htok; congruence.
    cbn [lookup list_lookup default from_option id].
    destruct (decide (p0 = str "Bearer")) as [->|Hp0].
    + rewrite bool_decide_true by done. cbn [negb].
      apply split_bearer in Hsplit as [Hh Htok]. rewrite Hh.
      destruct (tokens st !! p1) as [[|c' u']|] eqn:Hlook; cbn [truthy negb].
      * apply Hreject. intros u (tok & Hh'%(inj Some) & _ & Hl & Hne).
        apply app_inv_head in Hh'. subst tok.
        pose proof (eq_trans (eq_sym Hlook) Hl) as Heq. by simplify_eq.
      * split; [done|]. split; [|done]. intros u.
        cbn [default from_option id fst]. split.
        -- intros [= <-]. by exists p1.
        -- intros (tok & Hh'%(inj Some) & _ & Hl & Hne).
           apply app_inv_head in Hh'. subst tok.
        pose proof (eq_trans (eq_sym Hlook) Hl) as Heq. by simplify_eq.
      * apply Hreject. intros u (tok & Hh'%(inj Some) & _ & Hl & Hne).
        apply app_inv_head in Hh'. subst tok.
        pose proof (eq_trans (eq_sym Hlook) Hl) as Heq. by simplify_eq.
    + rewrite bool_decide_false by congruence. cbn [negb].
      apply Hreject. intros u (tok & Hh%(inj Some) & Htok & _).
      apply (conj Hh) in Htok. apply split_bearer in Htok. congruence.
  - apply Hreject. by intros u (tok & [= Hh] & _).
Qed.

(** X9: [authMiddleware] never writes the store; it calls [next()] with
    a user exactly when the header is "Bearer ", followed by a token
    without a space that the token store binds to that user, the user
    being non-empty; in every other case it answers 401. *)
Theorem authMiddleware_accepts_bearer_tokens
    (authHeader : option jsstring) (st : Storage) :
  (authMiddleware authHeader st).2 = st
  ∧ (∀ userId,
       (authMiddleware authHeader st).1 = Next userId
       ↔ ∃ token, authHeader = Some (str "Bearer " ++ token)
                  ∧ (SPACE ∉ token)
                  ∧ st.(tokens) !! token = Some userId
                  ∧ userId ≠ [])
  ∧ (∀ res, (authMiddleware authHeader st).1 = Responded res →
       res.(Response.status) = 401).
Proof. apply authMiddleware_spec. Qed.

Lemma authMiddleware_state (authHeader : option jsstring) (st : Storage) :
  authMiddleware authHeader st = ((authMiddleware authHeader st).1, st).
Proof.
  pose proof (proj1 (authMiddleware_spec authHeader st)) as Hst.
  destruct (authMiddleware authHeader st) as [outcome st']. cbn in *.
  by rewrite Hst.
Qed.

Lemma withAuth_eq (authHeader : option jsstring)
    (handler : jsstring → M Response) (st : Storage) :
  withAuth authHeader handler st
  = match (authMiddleware authHeader st).1 with
    | Responded res => (res, st)
    | Next userId => handler userId st
    end.
Proof.
  unfold withAuth, bind. rewrite authMiddleware_state. cbn [fst].
  by destruct (authMiddleware authHeader st).1.
Qed.

(** ** [POST /auth/mock-login] *)

Lemma mock_login_blank (uuid : jsstring) (userId : JsValue) (st : Storage) :
  (∀ s, userId = JsString s → forallb isWhiteSpace s = true) →
  routes.mock_login uuid userId st
  = (Response.mk 400
       (JsonError (str "userId is required and must be a non-empty string")),
     st).
Proof.
  intros Hblank. unfold routes.mock_login.
  destruct userId as [s|b]; cbn [js_falsy not_a_string orb].
  - specialize (Hblank s eq_refl). apply trim_nil_iff in Hblank.
    rewrite Hblank. cbn [length Nat.eqb]. by rewrite orb_true_r.
  - by rewrite orb_true_r.
Qed.

Lemma mock_login_ok (uuid s : jsstring) (st : Storage) :
  forallb isWhiteSpace s = false →
  routes.mock_login uuid (JsString s) st
  = (Response.mk 200 (JsonToken (str "fake_" ++ uuid)),
     (step (OpGenerateToken uuid (trim s)) st).2)
  ∧ trim s ≠ [].
Proof.
  intros Hs.
  assert (Htrim : trim s ≠ []).
  { intros Hnil%trim_nil_iff. congruence. }
  split; [|done]. unfold routes.mock_login.
  cbn [js_falsy not_a_string orb].
  destruct s as [|c s]; [done|]. cbn [truthy negb orb].
  destruct (trim (c :: s)) as [|c' t'] eqn:Ht; [done|].
  cbn [length Nat.eqb]. by rewrite step_state.
Qed.

(** X10: [POST /auth/mock-login] answers 400 and leaves the store as it
    was exactly when [userId] is not a string, or is a string that is
    empty or white space only; otherwise it answers 200 with the token
    "fake_" followed by the uuid, bound to the trimmed [userId], and the
    notes are as before. *)
Theorem mock_login_requires_userId
    (uuid : jsstring) (userId : JsValue) (st : Storage) :
  ((routes.mock_login uuid userId st).1.(Response.status) = 400
   ↔ ∀ s, userId = JsString s → forallb isWhiteSpace s = true)
  ∧ ((routes.mock_login uuid userId st).1.(Response.status) = 400 →
     (routes.mock_login uuid userId st).2 = st)
  ∧ (∀ s, userId = JsString s → forallb isWhiteSpace s = false →
     routes.mock_login uuid userId st
     = (Response.mk 200 (JsonToken (str "fake_" ++ uuid)),
        {| notes := st.(notes);
           tokens := <[str "fake_" ++ uuid := trim s]> st.(tokens) |})).
Proof.
  destruct userId as [s|b].
  - destruct (forallb isWhiteSpace s) eqn:Hs.
    + rewrite (mock_login_blank uuid (JsString s) st)
        by (by intros ? [= <-]).
      split; [split; [by intros _ ? [= <-]|done]|].
      split; [done|]. intros ? [= <-]. congruence.
    + destruct (mock_login_ok uuid s st Hs) as [-> _]. cbn [fst snd].
      split; [split; [done|]|].
      * intros Hall. specialize (Hall s eq_refl). congruence.
      * split; [done|]. by intros ? [= <-] _.
  - rewrite (mock_login_blank uuid (JsOther b) st) by done.
    split; [split; [by intros _ ? ?|done]|]. by split.
Qed.

(** X11: logging in and then presenting the token works: for a [userId]
    that is not blank and a uuid without a space, the token that
    [POST /auth/mock-login] returns, sent as "Bearer <token>", makes
    [authMiddleware] call [next()] with the trimmed [userId]. *)
Theorem mock_login_then_authMiddleware
    (uuid s : jsstring) (st : Storage) :
  forallb isWhiteSpace s = false →
  SPACE ∉ uuid →
  ∃ token st',
    routes.mock_login uuid (JsString s) st
    = (Response.mk 200 (JsonToken token), st')
    ∧ authMiddleware (Some (str "Bearer " ++ token)) st' = (Next (trim s), st').
Proof.
  intros Hs Huuid.
  destruct (mock_login_ok uuid s st Hs) as [Hlogin Htrim].
  eexists _, _. split; [exact Hlogin|].
  rewrite authMiddleware_state. f_equal.
  apply authMiddleware_spec. exists (str "fake_" ++ uuid).
  split; [done|]. split; [|split; [|done]].
  - intros [Hin|Hin]%elem_of_app; [|done]. revert Hin. vm_compute.
    intros Hin.
    repeat (apply elem_of_cons in Hin as [Hin|Hin]; [discriminate|idtac]).
    by apply elem_of_nil in Hin.
  - rewrite step_tokens. apply lookup_insert_eq.
Qed.

(** ** The token store through the routes *)

Lemma tokens_inv_step (op : Op) (st : Storage) :
  tokens_inv st →
  (∀ uuid userId, op = OpGenerateToken uuid userId →
     userId ≠ [] ∧ trim userId = userId) →
  tokens_inv (step op st).2.
Proof.
  intros Hinv Hop token userId. rewrite step_tokens.
  destruct op as [uuid u| | | | | |]; try apply Hinv.
  destruct (decide (str "fake_" ++ uuid = token)) as [<-|Hne].
  - rewrite lookup_insert_eq. intros [= <-]. by apply (Hop uuid).
  - rewrite lookup_insert_ne by done. apply Hinv.
Qed.

Lemma tokens_inv_run (ops : list Op) (st : Storage) :
  tokens_inv st →
  Forall (fun op => ∀ uuid userId, op = OpGenerateToken uuid userId →
                      userId ≠ [] ∧ trim userId = userId) ops →
  tokens_inv (run ops st).2.
Proof.
  intros Hinv Hops. revert st Hinv.
  induction Hops as [|op ops Hop Hops IH]; intros st Hinv; [done|].
  cbn [run]. unfold bind.
  pose proof (tokens_inv_step op st Hinv Hop) as Hstep.
  destruct (step op st) as [[] st1]. by apply IH.
Qed.

(** X12: the one route that issues tokens issues them for user
    identifiers that are not empty and have no white space at either
    end: [POST /auth/mock-login] leaves the store as it was or makes the
    call [generateToken uuid (trim s)] for a string [s] that is not
    blank.  In every store reached from the empty one by service calls
    among which [generateToken] is called with such identifiers only,
    each token is bound to such an identifier, and [validateToken]
    answers [null] for the tokens that the store does not hold and for
    no other. *)
Theorem mock_login_keeps_tokens_valid
    (uuid : jsstring) (userId : JsValue) (st : Storage)
    (ops : list Op) (token : jsstring) :
  ((routes.mock_login uuid userId st).2 = st
   ∨ ∃ s, userId = JsString s
          ∧ trim s ≠ [] ∧ trim (trim s) = trim s
          ∧ (routes.mock_login uuid userId st).2
            = (authService.generateToken uuid (trim s) st).2)
  ∧ (Forall (fun op => ∀ uuid' userId', op = OpGenerateToken uuid' userId' →
                         userId' ≠ [] ∧ trim userId' = userId') ops →
     (∀ user, (run ops emptyStorage).2.(tokens) !! token = Some user →
        user ≠ [] ∧ trim user = user)
     ∧ ((authService.validateToken token (run ops emptyStorage).2).1 = None
        ↔ (run ops emptyStorage).2.(tokens) !! token = None)).
Proof.
  split.
  - destruct userId as [s|b].
    + destruct (forallb isWhiteSpace s) eqn:Hs.
      * left. rewrite (mock_login_blank uuid (JsString s) st); [done|].
        by intros ? [= <-].
      * right. exists s. destruct (mock_login_ok uuid s st Hs) as [-> Hne].
        split; [done|]. split; [done|]. split; [apply trim_idem|].
        by rewrite step_state.
    + left. by rewrite (mock_login_blank uuid (JsOther b) st).
  - intros Hops.
    assert (Hinv : tokens_inv (run ops emptyStorage).2).
    { apply tokens_inv_run; [|done].
      intros tok u Hl. cbn in Hl. by rewrite lookup_empty in Hl. }
    split; [apply Hinv|].
    rewrite validateToken_None. split; [|by left].
    intros [?|Hempty]; [done|]. by destruct (Hinv _ _ Hempty).
Qed.

(** ** The protected routes *)

Lemma bearer_authenticates (authHeader : option jsstring)
    (token userId : jsstring) (st : Storage) :
  authHeader = Some (str "Bearer " ++ token) →
  SPACE ∉ token →
  st.(tokens) !! token = Some userId →
  userId ≠ [] →
  (authMiddleware authHeader st).1 = Next userId.
Proof.
  intros Hh Htok Hl Hne. apply authMiddleware_spec. by exists token.
Qed.

(** X13: a request to a route that is registered behind
    [authMiddleware], whatever its handler is, whose [Authorization]
    header is not "Bearer ", followed by a space-free token that the
    store binds to a non-empty user, is answered 401, and the store is
    as before: the handler of the route does not run. *)
Theorem unauthenticated_request_is_refused
    (authHeader : option jsstring) (handler : jsstring → M Response)
    (st : Storage) :
  (¬ ∃ token userId,
       authHeader = Some (str "Bearer " ++ token)
       ∧ (SPACE ∉ token)
       ∧ st.(tokens) !! token = Some userId
       ∧ userId ≠ []) →
  (withAuth authHeader handler st).2 = st
  ∧ (withAuth authHeader handler st).1.(Response.status) = 401
  ∧ (authMiddleware authHeader st).1
    = Responded (withAuth authHeader handler st).1.
Proof.
  intros Hno. rewrite withAuth_eq.
  pose proof (proj2 (proj2 (authMiddleware_spec authHeader st))) as H401.
  destruct (authMiddleware authHeader st).1 as [res|u] eqn:Hauth.
  - split; [done|]. split; [by apply H401|done].
  - apply authMiddleware_spec in Hauth as (token & ?).
    destruct Hno. by exists token, u.
Qed.

Lemma notes_delete_eq authHeader noteId st userId :
  (authMiddleware authHeader st).1 = Next userId →
  routes.notes_delete authHeader noteId st
  = (match (notesService.deleteNote noteId userId st).1 with
     | DeleteNotFound => Response.mk 404 (JsonError (str "Note not found"))
     | DeleteForbidden =>
         Response.mk 403
           (JsonError (str "You do not have permission to delete this note"))
     | DeleteSuccess => Response.mk 204 NoBody
     end, (notesService.deleteNote noteId userId st).2).
Proof.
  intros Hauth. unfold routes.notes_delete. rewrite withAuth_eq, Hauth.
  unfold bind, ret.
  by destruct (notesService.deleteNote noteId userId st) as [[] ?].
Qed.

(** X15: for a request that carries a valid bearer token of user
    [userId], [DELETE /notes/:id] answers 404 exactly when no note has
    the identifier, 403 exactly when the note belongs to another user,
    and 204 without a body exactly when the note is the user's own; in
    the first two cases the store is as before, in the last the
    identifier is gone from it. *)
Theorem notes_delete_status
    (authHeader : option jsstring) (token userId : jsstring)
    (noteId : jsstring) (st : Storage) :
  storage_inv st →
  authHeader = Some (str "Bearer " ++ token) →
  SPACE ∉ token →
  st.(tokens) !! token = Some userId →
  userId ≠ [] →
  ((notesService.getNote noteId st).1 = None
   ∧ routes.notes_delete authHeader noteId st
     = (Response.mk 404 (JsonError (str "Note not found")), st))
  ∨ (∃ note, (notesService.getNote noteId st).1 = Some note
       ∧ note.(Note.userId) ≠ userId
       ∧ routes.notes_delete authHeader noteId st
         = (Response.mk 403
              (JsonError
                 (str "You do not have permission to delete this note")),
            st))
  ∨ (∃ note, (notesService.getNote noteId st).1 = Some note
       ∧ note.(Note.userId) = userId
       ∧ (routes.notes_delete authHeader noteId st).1
         = Response.mk 204 NoBody
       ∧ (notesService.getNote noteId
            (routes.notes_delete authHeader noteId st).2).1 = None).
Proof.
  intros Hinv Hh Htok Hl Hne.
  pose proof (bearer_authenticates _ _ _ _ Hh Htok Hl Hne) as Hauth.
  rewrite (notes_delete_eq _ _ _ _ Hauth), !getNote_eq. cbn [fst snd].
  destruct (deleteNote_cases noteId userId st)
    as [[Hget ->]|[(note & Hget & Hown & ->)|(note & Hget & Hown & ->)]];
    cbn [fst snd].
  - by left.
  - right; left. by exists note.
  - right; right. exists note. split; [done|]. split; [done|].
    split; [done|]. cbn. apply get_delete_eq, Hinv.
Qed.

Lemma notes_get_eq authHeader st userId :
  (authMiddleware authHeader st).1 = Next userId →
  routes.notes_get authHeader st
  = (Response.mk 200 (JsonNotes (notesService.getUserNotes userId st).1), st).
Proof.
  intros Hauth. unfold routes.notes_get. rewrite withAuth_eq, Hauth.
  unfold bind, ret. by rewrite getUserNotes_eq.
Qed.

(** X16: the list follows the token: for a request that carries a
    valid bearer token of user [userId], [GET /notes] answers 200 with
    the list of [userId], which holds all and only the stored notes
    that [userId] owns, and leaves the store as it was. *)
Theorem notes_get_follows_token
    (authHeader : option jsstring) (token userId : jsstring)
    (st : Storage) :
  authHeader = Some (str "Bearer " ++ token) →
  SPACE ∉ token →
  st.(tokens) !! token = Some userId →
  userId ≠ [] →
  routes.notes_get authHeader st
  = (Response.mk 200 (JsonNotes (notesService.getUserNotes userId st).1), st)
  ∧ (∀ note, note ∈ (notesService.getUserNotes userId st).1
       ↔ note ∈ JSMap.values st.(notes) ∧ note.(Note.userId) = userId).
Proof.
  intros Hh Htok Hl Hne.
  pose proof (bearer_authenticates _ _ _ _ Hh Htok Hl Hne) as Hauth.
  split; [by apply notes_get_eq|].
  intros note. rewrite getUserNotes_eq. cbn [fst].
  rewrite array_sort_Permutation, list_elem_of_filter. tauto.
Qed.

(** ** The list of one user against the calls of another *)

Lemma filter_all {A} (P : A → Prop) `{∀ x, Decision (P x)} (l : list A) :
  Forall P l → filter P l = l.
Proof.
  induction 1 as [|x l Hx Hl IH]; [done|].
  by rewrite filter_cons, decide_True, IH.
Qed.

Lemma userNotes_stored (userId : jsstring) (st : Storage) (note : Note) :
  storage_inv st →
  note ∈ (notesService.getUserNotes userId st).1 →
  note.(Note.userId) = userId
  ∧ JSMap.get note.(Note.id) st.(notes) = Some note.
Proof.
  intros [Hwf Hid] Hin. rewrite getUserNotes_eq in Hin. cbn [fst] in Hin.
  rewrite array_sort_Permutation in Hin.
  apply list_elem_of_filter in Hin as [Hown Hin]. split; [done|].
  apply list_elem_of_fmap in Hin as ([k n] & -> & Hin). cbn.
  rewrite (Hid k n Hin). by apply elem_get_wf.
Qed.

Lemma getUserNotes_after_delete (u noteId : jsstring) (st : Storage) :
  storage_inv st →
  (notesService.getUserNotes u (storage.deleteNote noteId st).2).1
  = filter (fun note => note.(Note.id) ≠ noteId)
      (notesService.getUserNotes u st).1.
Proof.
  intros [Hwf Hid]. rewrite !getUserNotes_eq.
  cbn [fst snd storage.deleteNote notes].
  rewrite values_delete by done.
  by rewrite filter_filter_comm, filter_array_sort.
Qed.

Lemma getUserNotes_after_overwrite (u : jsstring) (old updated : Note)
    (st : Storage) :
  storage_inv st →
  JSMap.get updated.(Note.id) st.(notes) = Some old →
  updated.(Note.userId) = old.(Note.userId) →
  updated.(Note.createdAt) = old.(Note.createdAt) →
  (notesService.getUserNotes u (storage.saveNote updated st).2).1
  = map (replaceNote updated.(Note.id) updated)
      (notesService.getUserNotes u st).1.
Proof.
  intros [Hwf Hid] Hget Hown Hat.
  assert (Hsame : ∀ n, n ∈ JSMap.values st.(notes) →
            n.(Note.id) = updated.(Note.id) → n = old).
  { intros n Hn Hnid.
    apply list_elem_of_fmap in Hn as ([k n'] & -> & Hin). cbn in *.
    rewrite (Hid k n' Hin) in Hnid. subst k.
    apply (elem_get_wf _ _ _ Hwf) in Hin. congruence. }
  rewrite !getUserNotes_eq. cbn [fst snd storage.saveNote notes].
  rewrite values_set_present;
    [|done|done|by eapply elem_keys, get_Some_elem].
  rewrite filter_map_replace.
  - apply array_sort_map. apply Forall_forall. intros n Hn.
    apply list_elem_of_filter in Hn as [_ Hn]. unfold replaceNote.
    destruct (decide _) as [Hnid|]; [|done].
    by rewrite (Hsame n Hn Hnid).
  - apply Forall_forall. intros n Hn. unfold replaceNote.
    destruct (decide _) as [Hnid|]; [|done].
    by rewrite (Hsame n Hn Hnid).
Qed.

Lemma getUserNotes_after_fresh (u : jsstring) (note : Note) (st : Storage) :
  JSMap.get note.(Note.id) st.(notes) = None →
  note.(Note.userId) ≠ u →
  (notesService.getUserNotes u (storage.saveNote note st).2).1
  = (notesService.getUserNotes u st).1.
Proof.
  intros Hfresh Hown. rewrite !getUserNotes_eq.
  cbn [fst snd storage.saveNote notes].
  rewrite set_fresh by done. unfold JSMap.values.
  rewrite map_app, filter_app. cbn [map snd].
  rewrite filter_cons, decide_False by done.
  by rewrite filter_nil, app_nil_r.
Qed.

(** X18: what other users do never changes a user's list: a call made
    in another user's name, or a [generateToken], leaves the list of the
    user exactly as it was, provided a [createNote] draws an identifier
    that the store does not hold. *)
Theorem list_unaffected_by_other_users
    (userId : jsstring) (op : Op) (st : Storage) :
  storage_inv st →
  op_user op ≠ Some userId →
  (∀ noteId, allocates noteId op → (notesService.getNote noteId st).1 = None) →
  (notesService.getUserNotes userId (step op st).2).1
  = (notesService.getUserNotes userId st).1.
Proof.
  intros Hinv Huser Hfresh. rewrite step_state.
  destruct op as [uuid u|token|uuid now u dto|u|k|now k u dto|k u].
  - by rewrite !getUserNotes_eq.
  - done.
  - destruct (notesService.createNote uuid now u dto st)
      as [[note|e] st'] eqn:Hc; cbn [snd].
    + pose proof Hc as Hc'.
      apply createNote_success_inv in Hc' as (Hid & Hu & _ & Hs & Htk).
      destruct (createNote_cases uuid now u dto st)
        as [[e' Heq]|(note' & _ & Heq)]; rewrite Heq in Hc; [done|].
      injection Hc as -> <-.
      apply getUserNotes_after_fresh.
      * rewrite Hid. specialize (Hfresh (str "note_" ++ uuid) eq_refl).
        by rewrite getNote_eq in Hfresh.
      * rewrite Hu. intros ->. by apply Huser.
    + destruct (createNote_cases uuid now u dto st)
        as [[e' Heq]|(note' & _ & Heq)]; rewrite Heq in Hc; [|done].
      by injection Hc as _ <-.
  - by rewrite !getUserNotes_eq.
  - done.
  - destruct (updateNote_cases now k u dto st)
      as [(r & _ & ->)|(old & Hget & Hown & _ & _ & _ & ->)]; [done|].
    cbv zeta. cbn [snd].
    pose proof (storage_inv_get st k old Hinv Hget) as Hid.
    rewrite (getUserNotes_after_overwrite userId old); try done;
      [|by cbn; rewrite Hid].
    cbn [Note.id]. rewrite Hid.
    rewrite <- (map_id (notesService.getUserNotes userId st).1) at 2.
    apply map_ext_in. intros n Hn%list_elem_of_In.
    destruct (userNotes_stored userId st n Hinv Hn) as [Hnu Hnget].
    unfold replaceNote. destruct (decide _) as [Hnid|]; [|done].
    rewrite Hnid in Hnget. assert (n = old) as -> by congruence.
    destruct Huser. cbn. congruence.
  - destruct (deleteNote_cases k u st)
      as [[_ ->]|[(note & _ & _ & ->)|(old & Hget & Hown & ->)]];
      [done|done|].
    cbn [snd]. rewrite getUserNotes_after_delete by done.
    apply filter_all, Forall_forall. intros n Hn Hnid.
    destruct (userNotes_stored userId st n Hinv Hn) as [Hnu Hnget].
    rewrite Hnid in Hnget. assert (n = old) by congruence. subst n.
    destruct Huser. cbn. congruence.
Qed.

(** ** The storage object *)

(** X19: the storage methods round-trip: after [saveNote] the note is
    what [getNote] finds under its identifier, every other identifier
    being as before, and the note is in the list of its owner;
    [deleteNote] returns whether the identifier was present, changes
    nothing when it was not, and, the keys being distinct, leaves the
    identifier absent; after [saveToken], [getUserIdByToken] finds the
    user, the empty one included. *)
Theorem storage_round_trips
    (note : Note) (noteId token userId : jsstring) (st : Storage) :
  JSMap.wf st.(notes) →
  (storage.getNote note.(Note.id) (storage.saveNote note st).2).1 = Some note
  ∧ (noteId ≠ note.(Note.id) →
     (storage.getNote noteId (storage.saveNote note st).2).1
     = (storage.getNote noteId st).1)
  ∧ note ∈ (storage.getNotesByUser note.(Note.userId)
              (storage.saveNote note st).2).1
  ∧ ((storage.deleteNote noteId st).1 = true
     ↔ ∃ found, (storage.getNote noteId st).1 = Some found)
  ∧ ((storage.deleteNote noteId st).1 = false →
     (storage.deleteNote noteId st).2 = st)
  ∧ (storage.getNote noteId (storage.deleteNote noteId st).2).1 = None
  ∧ (storage.getUserIdByToken token (storage.saveToken token userId st).2).1
    = Some userId.
Proof.
  intros Hwf. run_M. cbn [fst snd notes tokens].
  split; [apply get_set_eq|].
  split; [intros Hne; by apply get_set_ne|].
  split.
  { apply (elem_values_userNotes _
             {| notes := JSMap.set (Note.id note) note (notes st);
                tokens := tokens st |} (Note.id note)); [|done].
    apply elem_set_self. }
  unfold JSMap.has.
  split.
  { destruct (JSMap.get noteId (notes st)) as [n|]; split; try done.
    - intros _. by exists n.
    - by intros [? ?]. }
  split.
  { destruct (JSMap.get noteId (notes st)) eqn:Hget; [done|].
    intros _. rewrite delete_absent by done. by destruct st. }
  split; [by apply get_delete_eq|apply lookup_insert_eq].
Qed.

(** ** Instances on the example stores *)

Ltac closed_not_elem :=
  vm_compute; let Hin := fresh in intros Hin;
  repeat (apply elem_of_cons in Hin as [Hin|Hin]; [discriminate|idtac]);
  by apply elem_of_nil in Hin.

Lemma sessionStore_inv : storage_inv sessionStore.
Proof.
  exact (storage_inv_reachable
           [OpGenerateToken (str "t1") (str "alice");
            OpGenerateToken (str "t2") (str "bob");
            OpCreateNote (str "n1") 1000 (str "alice")
              {| create_title := Some (str "Shop");
                 create_body := Some (str "milk") |}]).
Qed.

Lemma sessionStore_alice :
  sessionStore.(tokens) !! str "fake_t1" = Some (str "alice").
Proof. reflexivity. Qed.

Lemma sessionStore_bob :
  sessionStore.(tokens) !! str "fake_t2" = Some (str "bob").
Proof. reflexivity. Qed.

Lemma sessionStore_note :
  (notesService.getNote (str "note_n1") sessionStore).1 = Some aliceNote.
Proof. reflexivity. Qed.


Lemma owner_and_createdAt_never_change_witness :
  str "note_n1" = aliceNote.(Note.id)
  ∧ str "alice" = aliceNote.(Note.userId)
  ∧ toISOString 1000 = aliceNote.(Note.createdAt).
Proof.
  apply (owner_and_createdAt_never_change (str "note_n1") aliceNote
           {| Note.id := str "note_n1"; Note.userId := str "alice";
              Note.title := str "New"; Note.body := str "milk";
              Note.createdAt := toISOString 1000;
              Note.updatedAt := Some (toISOString 2000) |}
           [OpUpdateNote 2000 (str "note_n1") (str "alice")
              {| update_title := Some (str " New ");
                 update_body := None |}]
           aliceStore aliceStore_inv eq_refl);
    [|reflexivity].
  repeat constructor. by intros [].
Defined.

Lemma other_users_cannot_touch_note_witness :
  notesService.getNote (str "note_n1")
    (run [OpUpdateNote 2000 (str "note_n1") (str "bob")
            {| update_title := Some (str "Mine"); update_body := None |};
          OpDeleteNote (str "note_n1") (str "bob")] aliceStore).2
  = (Some aliceNote,
     (run [OpUpdateNote 2000 (str "note_n1") (str "bob")
             {| update_title := Some (str "Mine"); update_body := None |};
           OpDeleteNote (str "note_n1") (str "bob")] aliceStore).2).
Proof.
  apply (other_users_cannot_touch_note (str "note_n1") aliceNote
           [OpUpdateNote 2000 (str "note_n1") (str "bob")
              {| update_title := Some (str "Mine"); update_body := None |};
            OpDeleteNote (str "note_n1") (str "bob")]
           aliceStore aliceStore_inv eq_refl).
  repeat constructor; try (by intros []); vm_compute; discriminate.
Defined.

Lemma deleteNote_success_frame_witness :
  (notesService.getUserNotes (str "alice")
     (notesService.deleteNote (str "note_n1") (str "alice") aliceStore).2).1
  = filter (fun note => note.(Note.id) ≠ str "note_n1")
      (notesService.getUserNotes (str "alice") aliceStore).1.
Proof.
  apply (deleteNote_success_frame (str "note_n1") (str "alice") aliceStore
           (notesService.deleteNote (str "note_n1") (str "alice")
              aliceStore).2 aliceStore_inv eq_refl).
Defined.

Lemma updateNote_keeps_list_position_witness :
  (notesService.getUserNotes (str "alice")
     (notesService.updateNote 2000 (str "note_n1") (str "alice")
        {| update_title := None; update_body := Some (str "milk,eggs") |}
        aliceStore).2).1
  = map (replaceNote (str "note_n1")
           {| Note.id := str "note_n1"; Note.userId := str "alice";
              Note.title := str "Shop"; Note.body := str "milk,eggs";
              Note.createdAt := toISOString 1000;
              Note.updatedAt := Some (toISOString 2000) |})
      (notesService.getUserNotes (str "alice") aliceStore).1.
Proof.
  exact (updateNote_keeps_list_position 2000 (str "note_n1") (str "alice")
           {| update_title := None; update_body := Some (str "milk,eggs") |}
           aliceStore _ _ aliceStore_inv eq_refl (str "alice")).
Defined.

Lemma tokens_are_permanent_witness :
  authService.validateToken (str "fake_t1")
    (run [OpGenerateToken (str "t3") (str "carol");
          OpDeleteNote (str "note_n1") (str "alice")] sessionStore).2
  = (Some (str "alice"),
     (run [OpGenerateToken (str "t3") (str "carol");
           OpDeleteNote (str "note_n1") (str "alice")] sessionStore).2).
Proof.
  apply (tokens_are_permanent (str "fake_t1") (str "alice")
           [OpGenerateToken (str "t3") (str "carol");
            OpDeleteNote (str "note_n1") (str "alice")]
           sessionStore eq_refl).
  repeat constructor; try (by intros []). vm_compute. discriminate.
Defined.

Lemma only_issued_tokens_resolve_witness :
  ∃ uuid, str "fake_t1" = str "fake_" ++ uuid
          ∧ OpGenerateToken uuid (str "alice")
            ∈ [OpGenerateToken (str "t1") (str "alice");
               OpGenerateToken (str "t2") (str "bob")].
Proof.
  exact (only_issued_tokens_resolve (str "fake_t1") (str "alice")
           [OpGenerateToken (str "t1") (str "alice");
            OpGenerateToken (str "t2") (str "bob")] eq_refl).
Defined.

Lemma mock_login_requires_userId_witness :
  routes.mock_login (str "t2") (JsString (str " bob ")) emptyStorage
  = (Response.mk 200 (JsonToken (str "fake_" ++ str "t2")),
     {| notes := emptyStorage.(notes);
        tokens := <[str "fake_" ++ str "t2" := trim (str " bob ")]>
                    emptyStorage.(tokens) |}).
Proof.
  apply (mock_login_requires_userId (str "t2") (JsString (str " bob "))
           emptyStorage) with (s := str " bob "); reflexivity.
Defined.

Lemma mock_login_then_authMiddleware_witness :
  ∃ token st',
    routes.mock_login (str "t2") (JsString (str " bob ")) emptyStorage
    = (Response.mk 200 (JsonToken token), st')
    ∧ authMiddleware (Some (str "Bearer " ++ token)) st'
      = (Next (trim (str " bob ")), st').
Proof.
  apply (mock_login_then_authMiddleware (str "t2") (str " bob ")
           emptyStorage); [reflexivity|closed_not_elem].
Defined.

Lemma mock_login_keeps_tokens_valid_witness :
  (authService.validateToken (str "fake_t9")
     (run [OpGenerateToken (str "t1") (str "alice")] emptyStorage).2).1
  = None
  ↔ (run [OpGenerateToken (str "t1") (str "alice")] emptyStorage).2
      .(tokens) !! str "fake_t9" = None.
Proof.
  refine (proj2 (proj2 (mock_login_keeps_tokens_valid (str "t2")
                          (JsString (str " bob ")) emptyStorage
                          [OpGenerateToken (str "t1") (str "alice")]
                          (str "fake_t9")) _)).
  apply Forall_cons. split; [|by apply Forall_nil].
  intros uuid u Hop. injection Hop as _ <-. split; [|reflexivity].
  intros Hnil. discriminate Hnil.
Defined.

Lemma unauthenticated_request_is_refused_witness :
  (routes.notes_delete (Some (str "Bearer  fake_t1")) (str "note_n1")
     sessionStore).2 = sessionStore
  ∧ (routes.notes_delete (Some (str "Bearer  fake_t1")) (str "note_n1")
       sessionStore).1.(Response.status) = 401.
Proof.
  destruct (unauthenticated_request_is_refused
              (Some (str "Bearer  fake_t1"))
              (fun userId =>
                 do result <- notesService.deleteNote (str "note_n1") userId;
                 match result with
                 | DeleteNotFound =>
                     ret (Response.mk 404 (JsonError (str "Note not found")))
                 | DeleteForbidden =>
                     ret (Response.mk 403
                            (JsonError
                               (str "You do not have permission to delete this note")))
                 | DeleteSuccess => ret (Response.mk 204 NoBody)
                 end)
              sessionStore) as (Hst & Hstatus & _).
  - intros (token & userId & Hh%(inj Some) & Htoken & _).
    apply Htoken. change (str "Bearer  fake_t1")
      with (str "Bearer " ++ SPACE :: str "fake_t1") in Hh.
    apply app_inv_head in Hh. rewrite <- Hh. left.
  - split; [exact Hst|exact Hstatus].
Defined.

Lemma notes_delete_status_witness :
  (routes.notes_delete (Some (str "Bearer fake_t1")) (str "note_n1")
     sessionStore).1 = Response.mk 204 NoBody
  ∧ (notesService.getNote (str "note_n1")
       (routes.notes_delete (Some (str "Bearer fake_t1")) (str "note_n1")
          sessionStore).2).1 = None.
Proof.
  destruct (notes_delete_status (Some (str "Bearer fake_t1"))
              (str "fake_t1") (str "alice") (str "note_n1") sessionStore
              sessionStore_inv eq_refl)
    as [[Hnone _]|[(note & Hget & Hown & _)|(note & _ & _ & Hres & Hgone)]].
  - closed_not_elem.
  - reflexivity.
  - vm_compute. discriminate.
  - discriminate Hnone.
  - exfalso. apply Hown. injection Hget as <-. reflexivity.
  - split; [exact Hres|exact Hgone].
Defined.

Lemma notes_get_follows_token_witness :
  routes.notes_get (Some (str "Bearer fake_t1")) sessionStore
  = (Response.mk 200
       (JsonNotes (notesService.getUserNotes (str "alice") sessionStore).1),
     sessionStore).
Proof.
  apply (notes_get_follows_token (Some (str "Bearer fake_t1"))
           (str "fake_t1") (str "alice") sessionStore eq_refl).
  - closed_not_elem.
  - reflexivity.
  - vm_compute. discriminate.
Defined.

Lemma list_unaffected_by_other_users_witness :
  (notesService.getUserNotes (str "alice")
     (step (OpCreateNote (str "n2") 2000 (str "bob")
              {| create_title := Some (str "Mine"); create_body := None |})
        aliceStore).2).1
  = (notesService.getUserNotes (str "alice") aliceStore).1.
Proof.
  apply (list_unaffected_by_other_users (str "alice")
           (OpCreateNote (str "n2") 2000 (str "bob")
              {| create_title := Some (str "Mine"); create_body := None |})
           aliceStore aliceStore_inv).
  - vm_compute. discriminate.
  - intros noteId <-. reflexivity.
Defined.

Lemma storage_round_trips_witness :
  (storage.getNote (str "note_n1")
     (storage.deleteNote (str "note_n1") aliceStore).2).1 = None.
Proof.
  apply (storage_round_trips aliceNote (str "note_n1") (str "fake_t1")
           (str "alice") aliceStore).
  apply aliceStore_inv.
Defined.
